(** * Processing of simulation results: consolidation and flattening

    A shallow embedding of [src/process_results.py] and the properties of
    its two functions, [consolidate_jsons_to_mega_json] and
    [process_mega_json_for_no_complete_prompt].

    Python values are modelled as follows.
    - Exceptions: an error monad [exc] whose [Raise] carries the exception.
      The locals of a function die with the exception it raises, so the
      flattener passes its state explicitly and drops it on [Raise]; the
      file system outlives an exception, so the consolidator returns it
      next to the outcome.
    - [dict]: an association list in insertion order (the order of the
      columns of the table is the order of the keys of [results]).
    - [float]: binary64 with its own addition, [PrimFloat.add].  The value
      of [math.exp], which is the C library's, is kept as the constructor
      [VExp]; its [OverflowError] is modelled.
    - A result record: Rocq records with the fields that the code reads,
      each of the type that the data model gives it (tokens are strings,
      log-probabilities floats, offsets integers, [choices] has its first
      entry).  A record that lacks one of the fields makes Python raise
      [KeyError]; such records are outside this model. *)

From Stdlib Require Import PrimFloat.
From Stdlib Require Import ZArith List String Bool Arith Lia Permutation.
Import ListNotations.

#[local] Set Warnings "-inexact-float".

Open Scope string_scope.
Open Scope list_scope.

(** ** Exceptions *)

Inductive pyerr : Type :=
| TypeError (msg : string)
| KeyError (key : string)
| IndexError (msg : string)
| ValueError (msg : string)
| Exception (msg : string)
| OverflowError (msg : string)
| FileNotFoundError
| JSONDecodeError.

Inductive exc (A : Type) : Type :=
| Ok (a : A)
| Raise (e : pyerr).

Arguments Ok {A} a.
Arguments Raise {A} e.

Definition bind {A B : Type} (c : exc A) (k : A -> exc B) : exc B :=
  match c with
  | Ok a => k a
  | Raise e => Raise e
  end.

Notation "x <- c ;; k" := (bind c (fun x => k))
  (at level 61, c at next level, right associativity).
Notation "' p <- c ;; k" := (bind c (fun p => k))
  (at level 61, p pattern, c at next level, right associativity).

Definition raised {A : Type} (c : exc A) : Prop := exists e, c = Raise e.

(** The messages of the exceptions that the two functions can meet. *)

Definition no_len : string := "object of type 'generator' has no len()".
Definition not_in_list : string := "is not in list".
Definition out_of_range : string := "list index out of range".
Definition unequal_lengths : string := "All arrays must be of the same length".
Definition not_a_record : string := "indices must be integers".
Definition math_range : string := "math range error".
Definition echo_required : string :=
  "When using 'no-complete' type prompt, completions should be supplied in prompt so getting probabilites requires echo-ing prompt probabilities.".

(** ** Python lists *)

Module PyList.

(** [l[i]], with Python's negative indices. *)
Definition getitem {A : Type} (l : list A) (i : Z) : exc A :=
  let n := Z.of_nat (List.length l) in
  let j := if (i <? 0)%Z then (n + i)%Z else i in
  if ((0 <=? j) && (j <? n))%Z
  then match nth_error l (Z.to_nat j) with
       | Some x => Ok x
       | None => Raise (IndexError out_of_range)
       end
  else Raise (IndexError out_of_range).

(** [l.index(x)]: the position of the first entry equal to [x]. *)
Fixpoint index (l : list Z) (x : Z) : exc nat :=
  match l with
  | [] => Raise (ValueError not_in_list)
  | y :: l' => if (y =? x)%Z then Ok 0 else i <- index l' x ;; Ok (S i)
  end.

(** [l[:n]] for [n >= 0]. *)
Definition slice_to {A : Type} (l : list A) (n : nat) : list A := firstn n l.

(** [range(a, b)]. *)
Definition range (a b : Z) : list Z :=
  map (fun k => (a + Z.of_nat k)%Z) (seq 0 (Z.to_nat (b - a))).

(** [sep.join(l)]. *)
Definition join (sep : string) (l : list string) : string := String.concat sep l.

End PyList.

(** ** Python dicts, in insertion order *)

Module PyDict.

Definition dict (V : Type) : Type := list (string * V).

Definition keys {V : Type} (d : dict V) : list string := map fst d.

Fixpoint find {V : Type} (k : string) (d : dict V) : option V :=
  match d with
  | [] => None
  | (k', v) :: d' => if k' =? k then Some v else find k d'
  end.

(** [d[k]]. *)
Definition get {V : Type} (k : string) (d : dict V) : exc V :=
  match find k d with
  | Some v => Ok v
  | None => Raise (KeyError k)
  end.

(** [d[k] = v]: an existing key keeps its place, a new key goes last. *)
Fixpoint set {V : Type} (k : string) (v : V) (d : dict V) : dict V :=
  match d with
  | [] => [(k, v)]
  | (k', v') :: d' => if k' =? k then (k', v) :: d' else (k', v') :: set k v d'
  end.

End PyDict.

Import PyDict.

(** ** Values and result records *)

(** The values that reach a cell of the table.  [VExp x] is the float
    that [math.exp(x)] returns. *)
Inductive pyval : Type :=
| VNone
| VBool (b : bool)
| VInt (z : Z)
| VFloat (x : float)
| VStr (s : string)
| VExp (x : float).

(** [math.exp(x)]: the exponential of the C library, which is finite up
    to the logarithm of the largest float; Python raises when the result
    of a finite argument is infinite. *)
Definition exp_overflows (x : float) : bool :=
  (0x1.62e42fefa39efp+9 <? x)%float && (x <? infinity)%float.

Definition math_exp (x : float) : exc pyval :=
  if exp_overflows x then Raise (OverflowError math_range) else Ok (VExp x).

Record prompt_t : Type := {
  index : pyval;
  values : dict pyval
}.

Record input_t : Type := {
  prompt : prompt_t;
  prompt_descriptor : string;
  full_input : string
}.

Record model_t : Type := {
  engine : string;
  echo : bool;
  max_tokens : Z
}.

Record logprobs_t : Type := {
  tokens : list string;
  token_logprobs : list float;
  text_offset : list Z
}.

(** What line 108 or line 116 stores under ["echo_logprobs"]: the
    ["logprobs"] dict of the choice itself, or a new dict with the two
    sliced lists. *)
Inductive echo_logprobs_t : Type :=
| EchoWhole (lp : logprobs_t)
| EchoSliced (toks : list string) (lps : list float).

Definition echo_tokens (e : echo_logprobs_t) : list string :=
  match e with
  | EchoWhole lp => tokens lp
  | EchoSliced toks _ => toks
  end.

Definition echo_token_logprobs (e : echo_logprobs_t) : list float :=
  match e with
  | EchoWhole lp => token_logprobs lp
  | EchoSliced _ lps => lps
  end.

(** [choices_0] is [res["output"]["choices"][0]["logprobs"]]; the key
    ["echo_logprobs"] of [res["output"]] is absent ([None]) in a record as
    the simulation wrote it. *)
Record output_t : Type := {
  choices_0 : logprobs_t;
  echo_logprobs : option echo_logprobs_t
}.

Record res_t : Type := {
  input : input_t;
  model : model_t;
  output : output_t
}.

(** [res["output"]["echo_logprobs"] = e]. *)
Definition set_echo_logprobs (res : res_t) (e : echo_logprobs_t) : res_t :=
  {| input := input res;
     model := model res;
     output := {| choices_0 := choices_0 (output res); echo_logprobs := Some e |} |}.

(** ** Files *)

(** A deserialized document: a result record, or a list of documents. *)
#[local] Set Warnings "-register-all".
Inductive doc : Type :=
| DRecord (res : res_t)
| DList (items : list doc).

Inductive file : Type :=
| Readable (d : doc)
| Malformed.

Definition path : Type := list string.

Definition path_eqb (p q : path) : bool :=
  if list_eq_dec string_dec p q then true else false.

Definition filesystem : Type := list (path * file).

Fixpoint read_file (p : path) (fs : filesystem) : option file :=
  match fs with
  | [] => None
  | (q, f) :: fs' => if path_eqb q p then Some f else read_file p fs'
  end.

Fixpoint write_file (p : path) (f : file) (fs : filesystem) : filesystem :=
  match fs with
  | [] => [(p, f)]
  | (q, g) :: fs' => if path_eqb q p then (q, f) :: fs' else (q, g) :: write_file p f fs'
  end.

(** Modelled from the spec: [load_json] of [file_IO_handler], which is not
    among the sources.  The spec treats it as a plain deserializer whose
    failure on a malformed file reaches the caller. *)
Definition load_json (filename : path) (fs : filesystem) : exc doc :=
  match read_file filename fs with
  | None => Raise FileNotFoundError
  | Some Malformed => Raise JSONDecodeError
  | Some (Readable d) => Ok d
  end.

(** Modelled from the spec: [save_json] of [file_IO_handler], which is not
    among the sources.  The spec treats it as a plain serializer that
    overwrites what the destination holds. *)
Definition save_json (d : doc) (filename : path) (fs : filesystem) : filesystem :=
  write_file filename (Readable d) fs.

(** ** The flattener *)

Module Flatten.

(** [results[k].append(v)]. *)
Definition append (k : string) (v : pyval) (results : dict (list pyval))
  : exc (dict (list pyval)) :=
  column <- get k results ;;
  Ok (set k (column ++ [v]) results).

(** Lines 89-90: [for k, v in values.items(): results[k] = []]. *)
Fixpoint add_prompt_fill_fields (items : dict pyval) (results : dict (list pyval))
  : dict (list pyval) :=
  match items with
  | [] => results
  | (k, _) :: items' => add_prompt_fill_fields items' (set k [] results)
  end.

(** Lines 95-96: [for k, v in list(values.items()): results[k].append(v)]. *)
Fixpoint populate_prompt_fill_values (items : dict pyval) (results : dict (list pyval))
  : exc (dict (list pyval)) :=
  match items with
  | [] => Ok results
  | (k, v) :: items' =>
      results' <- append k v results ;;
      populate_prompt_fill_values items' results'
  end.

(** Lines 78-81: the test that guards [continue]. *)
Definition filtered_out (filter_by_prompt_descriptor : option string) (res : res_t) : bool :=
  match filter_by_prompt_descriptor with
  | None => false
  | Some descriptor => negb (prompt_descriptor (input res) =? descriptor)
  end.

(** Lines 104-119: the value stored under ["echo_logprobs"]. *)
Definition isolate_echo (res : res_t) : exc echo_logprobs_t :=
  let choice := choices_0 (output res) in
  if (max_tokens (model res) =? 0)%Z
  then Ok (EchoWhole choice)
  else
    let len_input := Z.of_nat (String.length (full_input (input res))) in
    slicer <- PyList.index (text_offset choice) len_input ;;
    Ok (EchoSliced (PyList.slice_to (tokens choice) slicer)
                   (PyList.slice_to (token_logprobs choice) slicer)).

(** Lines 126-128: the loop over [range(1, n + 1)]. *)
Fixpoint gather (range : list Z) (tokens : list string) (token_logprobs : list float)
  (tokens_list : list string) (logprob_sum : float) : exc (list string * float) :=
  match range with
  | [] => Ok (tokens_list, logprob_sum)
  | i :: range' =>
      token <- PyList.getitem tokens (- i) ;;
      logprob <- PyList.getitem token_logprobs (- i) ;;
      gather range' tokens token_logprobs (tokens_list ++ [token]) (logprob_sum + logprob)%float
  end.

(** Lines 122-130, up to the joined tokens and the sum. *)
Definition completion (completion_is_last_n_tokens_of_echoed_prompt : Z)
  (e : echo_logprobs_t) : exc (pyval * float) :=
  '(tokens_list, logprob_sum) <-
    gather (PyList.range 1 (completion_is_last_n_tokens_of_echoed_prompt + 1))
           (echo_tokens e) (echo_token_logprobs e) [] 0%float ;;
  let tokens_list := rev tokens_list in
  Ok (VStr (PyList.join "-" tokens_list), logprob_sum).

(** The state of the loop: [results] and the flag. *)
Definition state : Type := dict (list pyval) * bool.

(** Line 69 and line 70. *)
Definition initial : state :=
  ([("index", []); ("engine", []); ("tokens", []); ("probability", [])], false).

(** Lines 84-96: the cells copied from the record. *)
Definition copy_fields (st : state) (res : res_t) : exc state :=
  let '(results, added_prompt_fill_fields_to_results_dict) := st in
  results <- append "index" (index (prompt (input res))) results ;;
  results <- append "engine" (VStr (engine (model res))) results ;;
  let results :=
    if added_prompt_fill_fields_to_results_dict then results
    else add_prompt_fill_fields (values (prompt (input res))) results in
  results <- populate_prompt_fill_values (values (prompt (input res))) results ;;
  Ok (results, true).

(** Lines 76-131: one turn of the loop, on the record [res].  The
    record is returned as the turn leaves it. *)
Definition body (completion_is_last_n_tokens_of_echoed_prompt : Z)
  (filter_by_prompt_descriptor : option string) (st : state) (res : res_t)
  : exc (state * res_t) :=
  if filtered_out filter_by_prompt_descriptor res then Ok (st, res)
  else
    '(results, added) <- copy_fields st res ;;
    if negb (echo (model res)) then Raise (Exception echo_required)
    else
      e <- isolate_echo res ;;
      let res := set_echo_logprobs res e in
      '(joined, logprob_sum) <-
        completion completion_is_last_n_tokens_of_echoed_prompt e ;;
      results <- append "tokens" joined results ;;
      probability <- math_exp logprob_sum ;;
      results <- append "probability" probability results ;;
      Ok ((results, added), res).

(** Line 75: [for res in mega].  An item that is not a dict of the
    record shape fails at its first subscript. *)
Fixpoint for_each (n : Z) (flt : option string) (mega : list doc) (st : state)
  : exc (state * list doc) :=
  match mega with
  | [] => Ok (st, [])
  | DRecord res :: mega' =>
      '(st', res') <- body n flt st res ;;
      '(st'', rest) <- for_each n flt mega' st' ;;
      Ok (st'', DRecord res' :: rest)
  | DList _ :: _ => Raise (TypeError not_a_record)
  end.

(** [pd.DataFrame(results)]: the columns in the order of the keys; pandas
    refuses columns of unequal lengths. *)
Definition DataFrame : Type := dict (list pyval).

Definition pd_DataFrame (results : dict (list pyval)) : exc DataFrame :=
  match results with
  | [] => Ok []
  | (_, column) :: others =>
      if forallb (fun kc => List.length (snd kc) =? List.length column)%nat others
      then Ok results
      else Raise (ValueError unequal_lengths)
  end.

Definition columns (df : DataFrame) : list string := keys df.

Definition rows (df : DataFrame) : nat :=
  match df with
  | [] => 0
  | (_, column) :: _ => List.length column
  end.

Definition column (k : string) (df : DataFrame) : option (list pyval) := find k df.

(** The whole function, with the list [mega] as the loop leaves it next
    to the table. *)
Definition run (path_to_megajson : path)
  (completion_is_last_n_tokens_of_echoed_prompt : Z)
  (filter_by_prompt_descriptor : option string) (fs : filesystem)
  : exc (DataFrame * list doc) :=
  mega <- load_json path_to_megajson fs ;;
  match mega with
  | DRecord _ => Raise (TypeError not_a_record)
  | DList mega =>
      '(st, mega') <- for_each completion_is_last_n_tokens_of_echoed_prompt
                        filter_by_prompt_descriptor mega initial ;;
      df_results <- pd_DataFrame (fst st) ;;
      Ok (df_results, mega')
  end.

End Flatten.

(** [process_mega_json_for_no_complete_prompt]; the caller that leaves
    the two optional arguments out passes [1] and [None]. *)
Definition process_mega_json_for_no_complete_prompt (path_to_megajson : path)
  (completion_is_last_n_tokens_of_echoed_prompt : Z)
  (filter_by_prompt_descriptor : option string) (fs : filesystem)
  : exc Flatten.DataFrame :=
  '(df_results, _) <- Flatten.run path_to_megajson
                        completion_is_last_n_tokens_of_echoed_prompt
                        filter_by_prompt_descriptor fs ;;
  Ok df_results.

(** ** The consolidator *)

Module Consolidate.

(** The two kinds of Python object that can stand for a listing of
    files: a list, and the generator that [Path.glob] returns. *)
Inductive listing : Type :=
| AList (items : list path)
| AGenerator (pending : list path).

(** [len(o)]: a generator has no length. *)
Definition len (o : listing) : exc nat :=
  match o with
  | AList items => Ok (List.length items)
  | AGenerator _ => Raise (TypeError no_len)
  end.

(** [for x in o]: the items that the loop visits and the object after
    the loop; a generator is used up. *)
Definition iterate (o : listing) : list path * listing :=
  match o with
  | AList items => (items, AList items)
  | AGenerator pending => (pending, AGenerator [])
  end.

Definition ends_with (suffix s : string) : bool :=
  let n := String.length s in
  let m := String.length suffix in
  (m <=? n)%nat && (substring (n - m) m s =? suffix).

Fixpoint below (folder p : path) : option path :=
  match folder, p with
  | [], _ => Some p
  | d :: folder', c :: p' => if d =? c then below folder' p' else None
  | _ :: _, [] => None
  end.

(** The paths that the pattern ["**/*.json"] selects below [folder]. *)
Definition matches (folder p : path) : bool :=
  match below folder p with
  | Some (c :: rest) => ends_with ".json" (last (c :: rest) "")
  | _ => false
  end.

(** [open_folder.glob("**/*.json")], in the order of the traversal. *)
Definition glob (open_folder : path) (fs : filesystem) : listing :=
  AGenerator (List.filter (matches open_folder) (map fst fs)).

(** Lines 28-30. *)
Fixpoint load_each (files : list path) (fs : filesystem) (mega : list doc)
  : exc (list doc) :=
  match files with
  | [] => Ok mega
  | data_file :: files' =>
      file_contents <- load_json data_file fs ;;
      load_each files' fs (mega ++ [file_contents])
  end.

(** Lines 26-35, for the object [list_of_data_files] of line 24. *)
Definition consolidate (list_of_data_files : listing) (save_file_path : path)
  (fs : filesystem) : filesystem * exc nat :=
  let mega := [] in
  match len list_of_data_files with
  | Raise e => (fs, Raise e)
  | Ok _ =>
      let '(visited, list_of_data_files) := iterate list_of_data_files in
      match load_each visited fs mega with
      | Raise e => (fs, Raise e)
      | Ok mega =>
          let fs := save_json (DList mega) save_file_path fs in
          (fs, len list_of_data_files)
      end
  end.

End Consolidate.

Definition consolidate_jsons_to_mega_json (open_folder save_file_path : path)
  (fs : filesystem) : filesystem * exc nat :=
  Consolidate.consolidate (Consolidate.glob open_folder fs) save_file_path fs.

(** ** Notions used in the statements *)

(** The last [n] entries of [l], in the order of [l]. *)
Definition last_entries {A : Type} (n : Z) (l : list A) : list A :=
  skipn (List.length l - Z.to_nat n) l.

(** The float sum of [l] as the loop of lines 126-128 accumulates it:
    from [0], the last entry first. *)
Definition backward_sum (l : list float) : float :=
  fold_right (fun x acc => (acc + x)%float) 0%float l.

(** The records that line 78 lets through. *)
Definition retained (flt : option string) (rs : list res_t) : list res_t :=
  List.filter (fun res => negb (Flatten.filtered_out flt res)) rs.

(** The file at [p] deserializes to the archive of the records [rs]. *)
Definition archive_at (p : path) (rs : list res_t) (fs : filesystem) : Prop :=
  load_json p fs = Ok (DList (map DRecord rs)).

(** The four columns of line 69. *)
Definition fixed_columns : list string := ["index"; "engine"; "tokens"; "probability"].

Definition is_fixed (k : string) : bool := existsb (String.eqb k) fixed_columns.

(** The columns of a table other than the four of line 69. *)
Definition extra_columns (df : Flatten.DataFrame) : list string :=
  List.filter (fun k => negb (is_fixed k)) (Flatten.columns df).

(** The keys of the [values] mapping of a record. *)
Definition fill_fields (res : res_t) : list string := keys (values (prompt (input res))).

(** Membership in a list of keys. *)
Definition mem (k : string) (l : list string) : bool := existsb (String.eqb k) l.

(** The keys of [ks] that are new with respect to [seen], each once, in
    their order: the keys that lines 89-90 add to a dict with the keys
    [seen]. *)
Fixpoint fresh_keys (seen ks : list string) : list string :=
  match ks with
  | [] => []
  | k :: ks' => if mem k seen then fresh_keys seen ks' else k :: fresh_keys (seen ++ [k]) ks'
  end.

(** The state that one turn of the loop leaves. *)
Definition step (n : Z) (flt : option string) (st : Flatten.state) (res : res_t)
  : exc Flatten.state :=
  '(st', _) <- Flatten.body n flt st res ;; Ok st'.

(** The state that the loop leaves. *)
Fixpoint fold_state (n : Z) (flt : option string) (rs : list res_t) (st : Flatten.state)
  : exc Flatten.state :=
  match rs with
  | [] => Ok st
  | res :: rs' => st' <- step n flt st res ;; fold_state n flt rs' st'
  end.

(** The record that a turn without exception leaves. *)
Definition after_turn (flt : option string) (res : res_t) : res_t :=
  if Flatten.filtered_out flt res then res
  else match Flatten.isolate_echo res with
       | Ok e => set_echo_logprobs res e
       | Raise _ => res
       end.

(** The joined tokens and the sum of the log-probabilities of a record
    (lines 104-130), and its two derived cells (lines 130-131). *)
Definition selection (n : Z) (res : res_t) : exc (pyval * float) :=
  e <- Flatten.isolate_echo res ;; Flatten.completion n e.

Definition cells (n : Z) (res : res_t) : exc (pyval * pyval) :=
  '(joined, logprob_sum) <- selection n res ;;
  probability <- math_exp logprob_sum ;;
  Ok (joined, probability).

Definition tokens_cell (n : Z) (res : res_t) : pyval :=
  match cells n res with
  | Ok (t, _) => t
  | Raise _ => VNone
  end.

Definition probability_cell (n : Z) (res : res_t) : pyval :=
  match cells n res with
  | Ok (_, q) => q
  | Raise _ => VNone
  end.

(** What a retained record needs for its turn to end without exception. *)
Definition turn_passes (n : Z) (res : res_t) : Prop :=
  echo (model res) = true /\ exists t q, cells n res = Ok (t, q).

(** What a turn appends to the column [c]: before the fill values (lines
    84-85), the fill values (line 96), after them (lines 130-131). *)
Definition cells_before (c : string) (res : res_t) : list pyval :=
  (if c =? "index" then [index (prompt (input res))] else [])
  ++ (if c =? "engine" then [VStr (engine (model res))] else []).

Definition cells_filled (c : string) (items : dict pyval) : list pyval :=
  map snd (List.filter (fun kv => fst kv =? c) items).

Definition cells_after (n : Z) (c : string) (res : res_t) : list pyval :=
  (if c =? "tokens" then [tokens_cell n res] else [])
  ++ (if c =? "probability" then [probability_cell n res] else []).

Definition turn_cells (n : Z) (c : string) (res : res_t) : list pyval :=
  cells_before c res ++ cells_filled c (values (prompt (input res))) ++ cells_after n c res.

(** The same for the first retained record, whose fill fields are reset
    by line 90 after lines 84-85 ran. *)
Definition first_turn_cells (n : Z) (c : string) (res : res_t) : list pyval :=
  (if mem c (fill_fields res) then [] else cells_before c res)
  ++ cells_filled c (values (prompt (input res))) ++ cells_after n c res.

(** The cell of the record [res] in the column [c] of a table whose
    records agree on their fill fields: the fill value when [c] is a fill
    field, one of the four cells of lines 84, 85, 130 and 131 otherwise. *)
Definition cell (n : Z) (c : string) (res : res_t) : pyval :=
  match find c (values (prompt (input res))) with
  | Some v => v
  | None =>
      if c =? "index" then index (prompt (input res))
      else if c =? "engine" then VStr (engine (model res))
      else if c =? "tokens" then tokens_cell n res
      else if c =? "probability" then probability_cell n res
      else VNone
  end.

(** The invariant of the data model on the retained records: a [values]
    mapping has distinct keys, and all of them have the same keys. *)
Definition uniform_fill_fields (flt : option string) (rs : list res_t) : Prop :=
  (forall r, In r (retained flt rs) -> NoDup (fill_fields r))
  /\ (forall r r', In r (retained flt rs) -> In r' (retained flt rs) ->
        forall k, In k (fill_fields r) <-> In k (fill_fields r')).

(** One dict extends another: the same keys, and each column longer by
    the cells [more]. *)
Definition extends (d d' : dict (list pyval)) (more : string -> list pyval) : Prop :=
  keys d' = keys d
  /\ forall c, find c d' = option_map (fun column => column ++ more c) (find c d).

(** The indices [1 + k], ..., [k + m]. *)
Definition indices_from (k m : nat) : list Z :=
  map (fun j => (1 + Z.of_nat j)%Z) (seq k m).

(** *** Pre-truncation, in the words of the specification *)

(** The position of the first entry of [l] equal to [x]. *)
Fixpoint position (x : Z) (l : list Z) : nat :=
  match l with
  | [] => 0
  | y :: l' => if (y =? x)%Z then 0 else S (position x l')
  end.

(** The position in [text_offset] of the character length of
    [full_input]. *)
Definition cutoff (res : res_t) : nat :=
  position (Z.of_nat (String.length (full_input (input res))))
           (text_offset (choices_0 (output res))).

(** The record with its [tokens] and [token_logprobs] truncated to the
    entries before the cutoff, and otherwise identical. *)
Definition pre_truncated (res : res_t) : res_t :=
  {| input := input res;
     model := model res;
     output :=
       {| choices_0 :=
            {| tokens := firstn (cutoff res) (tokens (choices_0 (output res)));
               token_logprobs := firstn (cutoff res) (token_logprobs (choices_0 (output res)));
               text_offset := text_offset (choices_0 (output res)) |};
          echo_logprobs := echo_logprobs (output res) |} |}.

(** The record as a run without generation would have written it. *)
Definition without_generation (res : res_t) : res_t :=
  {| input := input res;
     model := {| engine := engine (model res); echo := echo (model res); max_tokens := 0 |};
     output := output res |}.

(** ** Sample data *)

(** The log-probabilities of the example of the specification. *)
Definition sample_logprobs : logprobs_t :=
  {| tokens := ["The"; "cat"; "sat"; "."];
     token_logprobs := [-0.1; -0.2; -0.05; -0.01]%float;
     text_offset := [0; 3; 7; 11]%Z |}.

(** The same echo followed by two generated tokens. *)
Definition sample_logprobs_generated : logprobs_t :=
  {| tokens := ["The"; "cat"; "sat"; "."; "It"; "ran"];
     token_logprobs := [-0.1; -0.2; -0.05; -0.01; -1.5; -2.5]%float;
     text_offset := [0; 3; 7; 11; 12; 15]%Z |}.

Definition no_logprobs : logprobs_t :=
  {| tokens := []; token_logprobs := []; text_offset := [] |}.

(** A record with the input of the example; its index, fill fields,
    descriptor, echo flag, cap on generated tokens and log-probabilities
    are parameters. *)
Definition sample (i : Z) (fields : dict pyval) (descriptor : string) (echoing : bool)
  (cap : Z) (lp : logprobs_t) : res_t :=
  {| input := {| prompt := {| index := VInt i; values := fields |};
                 prompt_descriptor := descriptor;
                 full_input := "The cat sat." |};
     model := {| engine := "davinci"; echo := echoing; max_tokens := cap |};
     output := {| choices_0 := lp; echo_logprobs := None |} |}.

Definition mega_path : path := ["mega.json.gz"].

(** A file system with one archive. *)
Definition archive_of (rs : list res_t) : filesystem :=
  [(mega_path, Readable (DList (map DRecord rs)))].

(** The archive of the example of the specification and its table for
    a tail length of 2. *)
Definition example_archive : list res_t :=
  [sample 1 [("name", VStr "Bob")] "accept" true 0 sample_logprobs].

Definition example_table : Flatten.DataFrame :=
  [("index", [VInt 1]); ("engine", [VStr "davinci"]); ("tokens", [VStr "sat-."]);
   ("probability", [VExp (-0.05 + -0.01)]); ("name", [VStr "Bob"])].

(** An archive with two descriptors and its table for the descriptor
    ["accept"] and a tail length of 1.  The record with the other
    descriptor has no echo and no log-probabilities. *)
Definition mixed_archive : list res_t :=
  [sample 1 [("name", VStr "Bob")] "accept" true 0 sample_logprobs;
   sample 2 [("age", VInt 7)] "reject" false 0 no_logprobs;
   sample 3 [("name", VStr "Joe")] "accept" true 4 sample_logprobs_generated].

Definition accept_table : Flatten.DataFrame :=
  [("index", [VInt 1; VInt 3]); ("engine", [VStr "davinci"; VStr "davinci"]);
   ("tokens", [VStr "."; VStr "."]); ("probability", [VExp (0 + -0.01); VExp (0 + -0.01)]);
   ("name", [VStr "Bob"; VStr "Joe"])].

(** An archive whose record has a fill field named ["index"], and its
    table for a tail length of 1. *)
Definition index_field_archive : list res_t :=
  [sample 1 [("index", VStr "Bob")] "accept" true 0 sample_logprobs].

Definition index_field_table : Flatten.DataFrame :=
  [("index", [VStr "Bob"]); ("engine", [VStr "davinci"]); ("tokens", [VStr "."]);
   ("probability", [VExp (0 + -0.01)])].

(** The archive of the example as the loop leaves it. *)
Definition example_archive_after : list res_t :=
  [set_echo_logprobs (sample 1 [("name", VStr "Bob")] "accept" true 0 sample_logprobs)
     (EchoWhole sample_logprobs)].

(** An archive with a record that holds generated tokens, the archive
    with this record pre-truncated, and their table for a tail length of 2. *)
Definition generated_archive : list res_t :=
  [sample 1 [("name", VStr "Bob")] "accept" true 0 sample_logprobs;
   sample 3 [("name", VStr "Joe")] "accept" true 4 sample_logprobs_generated].

Definition truncated_archive : list res_t :=
  [sample 1 [("name", VStr "Bob")] "accept" true 0 sample_logprobs;
   pre_truncated (sample 3 [("name", VStr "Joe")] "accept" true 4 sample_logprobs_generated)].

Definition generated_table : Flatten.DataFrame :=
  [("index", [VInt 1; VInt 3]); ("engine", [VStr "davinci"; VStr "davinci"]);
   ("tokens", [VStr "sat-."; VStr "sat-."]);
   ("probability", [VExp (-0.05 + -0.01); VExp (-0.05 + -0.01)]);
   ("name", [VStr "Bob"; VStr "Joe"])].

(** Archives with a record that makes its turn raise: a record without
    echo ([silent]), a record without log-probabilities ([short]), a record
    with generated tokens whose offsets lack the length of the input
    ([unaligned]). *)
Definition silent (i : Z) : res_t :=
  sample i [("name", VStr "Bob")] "accept" false 0 sample_logprobs.

Definition short (i : Z) : res_t :=
  sample i [("name", VStr "Bob")] "accept" true 0 no_logprobs.

Definition unaligned (i : Z) (echoing : bool) : res_t :=
  sample i [("name", VStr "Bob")] "accept" echoing 4 sample_logprobs.

Definition sound (i : Z) : res_t :=
  sample i [("name", VStr "Bob")] "accept" true 0 sample_logprobs.

(** A folder of results with a readable and a malformed file. *)
Definition results_folder : path := ["results"].

Definition one_file : filesystem :=
  [(["results"; "a.json"], Readable (DRecord (sound 1)))].

Definition broken_file : filesystem :=
  [(["results"; "a.json"], Readable (DRecord (sound 1)));
   (["results"; "run2"; "b.json"], Malformed)].

(** An archive whose two records disagree on their fill fields, which
    are named like columns of line 69, and its table for a tail length
    of 1. *)
Definition unlike_archive : list res_t :=
  [sample 1 [("tokens", VStr "a")] "accept" true 0 sample_logprobs;
   sample 2 [("index", VStr "b"); ("engine", VStr "c"); ("probability", VStr "d")]
     "accept" true 0 sample_logprobs].

Definition unlike_table : Flatten.DataFrame :=
  [("index", [VInt 1; VInt 2; VStr "b"]);
   ("engine", [VStr "davinci"; VStr "davinci"; VStr "c"]);
   ("tokens", [VStr "a"; VStr "."; VStr "."]);
   ("probability", [VExp (0 + -0.01); VStr "d"; VExp (0 + -0.01)])].

(** Two records that differ at most in what [output] holds next to
    [choices]. *)
Definition same_inputs (res res' : res_t) : Prop :=
  input res = input res'
  /\ model res = model res'
  /\ choices_0 (output res) = choices_0 (output res').

(** The table without rows. *)
Definition empty_table : Flatten.DataFrame :=
  [("index", []); ("engine", []); ("tokens", []); ("probability", [])].

(** A record that lines 99-131 take without exception for the tail
    length [n]: it has echo, lines 104-119 select sequences for it, each
    of them with [n] entries at least, and the sum of the last [n]
    log-probabilities is in the range of [math.exp]. *)
Definition completes (n : Z) (res : res_t) : Prop :=
  echo (model res) = true
  /\ exists e,
       Flatten.isolate_echo res = Ok e
       /\ (n <= Z.of_nat (List.length (echo_tokens e)))%Z
       /\ (n <= Z.of_nat (List.length (echo_token_logprobs e)))%Z
       /\ exp_overflows (backward_sum (last_entries n (echo_token_logprobs e))) = false.

(** * Properties *)

(** ** Python lists: indices from the end *)

Section ListFacts.

Context {A : Type}.

Lemma getitem_from_end (l : list A) (i : nat) :
  PyList.getitem l (- (1 + Z.of_nat i)) =
  match nth_error (rev l) i with
  | Some x => Ok x
  | None => Raise (IndexError out_of_range)
  end.
Proof.
  unfold PyList.getitem.
  replace (- (1 + Z.of_nat i) <? 0)%Z with true by (symmetry; apply Z.ltb_lt; lia).
  rewrite nth_error_rev.
  destruct (Nat.ltb_spec i (List.length l)) as [Hlt | Hge].
  - replace ((0 <=? Z.of_nat (List.length l) + - (1 + Z.of_nat i))
             && (Z.of_nat (List.length l) + - (1 + Z.of_nat i) <? Z.of_nat (List.length l)))%Z
      with true by (symmetry; apply andb_true_iff; split; [apply Z.leb_le | apply Z.ltb_lt]; lia).
    replace (Z.to_nat (Z.of_nat (List.length l) + - (1 + Z.of_nat i)))
      with (List.length l - S i) by lia.
    reflexivity.
  - replace (0 <=? Z.of_nat (List.length l) + - (1 + Z.of_nat i))%Z
      with false by (symmetry; apply Z.leb_gt; lia).
    reflexivity.
Qed.

Lemma skipn_cons_nth (l : list A) (k : nat) (x : A) :
  nth_error l k = Some x -> skipn k l = x :: skipn (S k) l.
Proof.
  revert k; induction l as [| y l IH]; intros [| k] H; simpl in *; try discriminate.
  - congruence.
  - now apply IH.
Qed.

End ListFacts.

Lemma range_from_1 (n : Z) :
  PyList.range 1 (n + 1) = map (fun k => (1 + Z.of_nat k)%Z) (seq 0 (Z.to_nat n)).
Proof. unfold PyList.range. now replace (n + 1 - 1)%Z with n by lia. Qed.

Lemma backward_sum_rev (l : list float) (s : float) :
  fold_left PrimFloat.add (rev l) s = fold_right (fun x acc => (acc + x)%float) s l.
Proof.
  rewrite <- (rev_involutive l) at 2. rewrite fold_left_rev_right. reflexivity.
Qed.

(** ** The loop of lines 126-128 *)

Section Gather.

Variables (toks : list string) (lps : list float).

Lemma gather_in_bounds (m : nat) :
  forall (k : nat) (acc : list string) (s : float),
    (k + m <= List.length toks)%nat ->
    (k + m <= List.length lps)%nat ->
    Flatten.gather (indices_from k m) toks lps acc s =
    Ok (acc ++ firstn m (skipn k (rev toks)),
        fold_left PrimFloat.add (firstn m (skipn k (rev lps))) s).
Proof.
  induction m as [| m IH]; intros k acc s Ht Hl.
  - simpl. now rewrite app_nil_r.
  - unfold indices_from. cbn [seq map Flatten.gather]. rewrite !getitem_from_end.
    destruct (nth_error (rev toks) k) as [t |] eqn:Et.
    2:{ apply nth_error_None in Et. rewrite length_rev in Et. lia. }
    destruct (nth_error (rev lps) k) as [x |] eqn:El.
    2:{ apply nth_error_None in El. rewrite length_rev in El. lia. }
    cbn [bind]. fold (indices_from (S k) m). rewrite IH by lia.
    rewrite (skipn_cons_nth _ _ _ Et), (skipn_cons_nth _ _ _ El). simpl.
    now rewrite <- app_assoc.
Qed.

Lemma gather_out_of_bounds (m : nat) :
  forall (k : nat) (acc : list string) (s : float),
    (k <= List.length toks)%nat ->
    (k <= List.length lps)%nat ->
    (List.length toks < k + m \/ List.length lps < k + m)%nat ->
    Flatten.gather (indices_from k m) toks lps acc s = Raise (IndexError out_of_range).
Proof.
  induction m as [| m IH]; intros k acc s Ht Hl Hshort.
  - lia.
  - unfold indices_from. cbn [seq map Flatten.gather]. rewrite !getitem_from_end.
    destruct (nth_error (rev toks) k) as [t |] eqn:Et; [| reflexivity].
    destruct (nth_error (rev lps) k) as [x |] eqn:El; [| reflexivity].
    assert (k < List.length toks)%nat
      by (rewrite <- (length_rev toks); apply nth_error_Some; congruence).
    assert (k < List.length lps)%nat
      by (rewrite <- (length_rev lps); apply nth_error_Some; congruence).
    cbn [bind]. fold (indices_from (S k) m). apply IH; lia.
Qed.

End Gather.

Lemma completion_in_bounds (n : Z) (e : echo_logprobs_t) :
  (Z.to_nat n <= List.length (echo_tokens e))%nat ->
  (Z.to_nat n <= List.length (echo_token_logprobs e))%nat ->
  Flatten.completion n e =
  Ok (VStr (PyList.join "-" (last_entries n (echo_tokens e))),
      backward_sum (last_entries n (echo_token_logprobs e))).
Proof.
  intros Ht Hl. unfold Flatten.completion. rewrite range_from_1.
  fold (indices_from 0 (Z.to_nat n)). rewrite gather_in_bounds by lia. simpl.
  rewrite !firstn_rev, rev_involutive, backward_sum_rev. reflexivity.
Qed.

Lemma completion_out_of_bounds (n : Z) (e : echo_logprobs_t) :
  (List.length (echo_tokens e) < Z.to_nat n
   \/ List.length (echo_token_logprobs e) < Z.to_nat n)%nat ->
  Flatten.completion n e = Raise (IndexError out_of_range).
Proof.
  intros H. unfold Flatten.completion. rewrite range_from_1.
  fold (indices_from 0 (Z.to_nat n)). rewrite gather_out_of_bounds by lia. reflexivity.
Qed.

(** ** Dicts *)

Lemma mem_In (k : string) (l : list string) : mem k l = true <-> In k l.
Proof.
  unfold mem. rewrite existsb_exists. split.
  - intros (x & Hx & E). apply String.eqb_eq in E. now subst.
  - intros H. exists k. split; [assumption | apply String.eqb_refl].
Qed.

Lemma mem_app (k : string) (l l' : list string) : mem k (l ++ l') = mem k l || mem k l'.
Proof. apply existsb_app. Qed.

Section DictFacts.

Context {V : Type}.
Implicit Types (d : dict V) (k c : string) (v : V).

Lemma find_set k c v d : find c (set k v d) = if k =? c then Some v else find c d.
Proof.
  induction d as [| [k' v'] d IH]; simpl.
  - reflexivity.
  - destruct (k' =? k) eqn:E; simpl.
    + apply String.eqb_eq in E. subst k'. now destruct (k =? c).
    + rewrite IH. destruct (k' =? c) eqn:E'; [| reflexivity].
      apply String.eqb_eq in E'. subst k'. rewrite String.eqb_sym in E. now rewrite E.
Qed.

Lemma find_mem k d : mem k (keys d) = match find k d with Some _ => true | None => false end.
Proof.
  induction d as [| [k' v'] d IH]; simpl; [reflexivity |].
  rewrite (String.eqb_sym k k'). destruct (k' =? k); simpl; [reflexivity | exact IH].
Qed.

Lemma find_In k v d : find k d = Some v -> In (k, v) d.
Proof.
  induction d as [| [k' v'] d IH]; simpl; [discriminate |].
  destruct (k' =? k) eqn:E.
  - apply String.eqb_eq in E. intros [= ->]. left. now subst.
  - intros H. right. now apply IH.
Qed.

Lemma keys_set k v d :
  keys (set k v d) = if mem k (keys d) then keys d else keys d ++ [k].
Proof.
  induction d as [| [k' v'] d IH]; simpl; [reflexivity |].
  rewrite (String.eqb_sym k k'). destruct (k' =? k) eqn:E; simpl; [reflexivity |].
  unfold keys in *. rewrite IH. now destruct (mem k (map fst d)).
Qed.

End DictFacts.

Lemma fresh_keys_NoDup (ks : list string) :
  NoDup ks ->
  forall seen, fresh_keys seen ks = List.filter (fun k => negb (mem k seen)) ks.
Proof.
  induction 1 as [| k ks Hk Hks IH]; intros seen; simpl; [reflexivity |].
  destruct (mem k seen) eqn:E; simpl; [apply IH |].
  f_equal. rewrite IH. apply filter_ext_in. intros x Hx.
  rewrite mem_app. simpl. destruct (x =? k) eqn:Ex.
  - apply String.eqb_eq in Ex. subst x. contradiction.
  - now rewrite !orb_false_r.
Qed.

(** ** Columns that grow *)

Lemma extends_refl (d : dict (list pyval)) : extends d d (fun _ => []).
Proof.
  split; [reflexivity |]. intros c. destruct (find c d); simpl; [| reflexivity].
  now rewrite app_nil_r.
Qed.

Lemma extends_trans (d d' d'' : dict (list pyval)) (f g : string -> list pyval) :
  extends d d' f -> extends d' d'' g -> extends d d'' (fun c => f c ++ g c).
Proof.
  intros [K1 F1] [K2 F2]. split; [congruence |]. intros c.
  rewrite F2, F1. destruct (find c d); simpl; [| reflexivity]. now rewrite app_assoc.
Qed.

Lemma extends_ext (d d' : dict (list pyval)) (f g : string -> list pyval) :
  (forall c, f c = g c) -> extends d d' f -> extends d d' g.
Proof.
  intros E [K F]. split; [assumption |]. intros c. rewrite F. now rewrite E.
Qed.

Lemma append_present (k : string) (v : pyval) (d : dict (list pyval)) :
  mem k (keys d) = true -> exists d', Flatten.append k v d = Ok d'.
Proof.
  rewrite find_mem. unfold Flatten.append, get.
  destruct (find k d); [| discriminate]. simpl. eauto.
Qed.

Lemma append_absent (k : string) (v : pyval) (d : dict (list pyval)) :
  mem k (keys d) = false -> Flatten.append k v d = Raise (KeyError k).
Proof.
  rewrite find_mem. unfold Flatten.append, get.
  destruct (find k d); [discriminate | reflexivity].
Qed.

Lemma append_extends (k : string) (v : pyval) (d d' : dict (list pyval)) :
  Flatten.append k v d = Ok d' ->
  extends d d' (fun c => if k =? c then [v] else []).
Proof.
  unfold Flatten.append, get. destruct (find k d) as [column |] eqn:E; [| discriminate].
  simpl. intros [= <-]. split.
  - rewrite keys_set, find_mem, E. reflexivity.
  - intros c. rewrite find_set. destruct (k =? c) eqn:Ekc.
    + apply String.eqb_eq in Ekc. subst c. now rewrite E.
    + destruct (find c d); simpl; [| reflexivity]. now rewrite app_nil_r.
Qed.

Lemma populate_extends (items : dict pyval) :
  forall d d' : dict (list pyval),
    Flatten.populate_prompt_fill_values items d = Ok d' ->
    extends d d' (fun c => cells_filled c items).
Proof.
  induction items as [| [k v] items IH]; intros d d'; simpl.
  - intros [= <-]. apply extends_refl.
  - destruct (Flatten.append k v d) as [d1 |] eqn:E; [| discriminate]. simpl.
    intros H. apply append_extends in E. apply IH in H.
    eapply extends_ext; [| exact (extends_trans _ _ _ _ _ E H)].
    intros c. unfold cells_filled. simpl. now destruct (k =? c).
Qed.

Lemma populate_succeeds (items : dict pyval) :
  forall d : dict (list pyval),
    (forall k, In k (keys items) -> mem k (keys d) = true) ->
    exists d', Flatten.populate_prompt_fill_values items d = Ok d'.
Proof.
  induction items as [| [k v] items IH]; intros d Hall; simpl in *.
  - eauto.
  - destruct (append_present k v d) as [d1 E]; [apply Hall; now left |].
    rewrite E. simpl. apply IH. intros k0 Hk0.
    apply append_extends in E. destruct E as [K _]. rewrite K. apply Hall. now right.
Qed.

Lemma keys_add_prompt_fill_fields (items : dict pyval) :
  forall d : dict (list pyval),
    keys (Flatten.add_prompt_fill_fields items d) = keys d ++ fresh_keys (keys d) (keys items).
Proof.
  induction items as [| [k v] items IH]; intros d; simpl.
  - now rewrite app_nil_r.
  - rewrite IH, keys_set. destruct (mem k (keys d)); [reflexivity |].
    now rewrite <- app_assoc.
Qed.

Lemma find_add_prompt_fill_fields (items : dict pyval) :
  forall (d : dict (list pyval)) (c : string),
    find c (Flatten.add_prompt_fill_fields items d) =
    if mem c (keys items) then Some [] else find c d.
Proof.
  induction items as [| [k v] items IH]; intros d c; simpl; [reflexivity |].
  rewrite IH, find_set, (String.eqb_sym c k).
  destruct (mem c (keys items)); [now rewrite orb_true_r |].
  now destruct (k =? c).
Qed.

(** ** One turn of the loop *)

Lemma body_record (n : Z) (flt : option string) (st st' : Flatten.state) (res res' : res_t) :
  Flatten.body n flt st res = Ok (st', res') -> res' = after_turn flt res.
Proof.
  unfold Flatten.body, after_turn.
  destruct (Flatten.filtered_out flt res); [now intros [= _ <-] |].
  destruct (Flatten.copy_fields st res) as [[results added] |]; simpl; [| discriminate].
  destruct (echo (model res)); simpl; [| discriminate].
  destruct (Flatten.isolate_echo res) as [e |]; simpl; [| discriminate].
  destruct (Flatten.completion n e) as [[t s] |]; simpl; [| discriminate].
  destruct (Flatten.append "tokens" t results) as [results1 |]; simpl; [| discriminate].
  destruct (math_exp s) as [q |]; simpl; [| discriminate].
  destruct (Flatten.append "probability" q results1); simpl; [| discriminate].
  now intros [= _ <-].
Qed.

Lemma step_filtered_out (n : Z) (flt : option string) (st : Flatten.state) (res : res_t) :
  Flatten.filtered_out flt res = true -> step n flt st res = Ok st.
Proof. intros H. unfold step, Flatten.body. now rewrite H. Qed.

Lemma step_retained (n : Z) (flt : option string) (st : Flatten.state) (res : res_t) :
  Flatten.filtered_out flt res = false ->
  step n flt st res =
  ('(results, added) <- Flatten.copy_fields st res ;;
   if negb (echo (model res)) then Raise (Exception echo_required)
   else
     '(t, s) <- selection n res ;;
     results <- Flatten.append "tokens" t results ;;
     q <- math_exp s ;;
     results <- Flatten.append "probability" q results ;;
     Ok (results, added)).
Proof.
  intros H. unfold step, Flatten.body, selection. rewrite H.
  destruct (Flatten.copy_fields st res) as [[results added] |]; simpl; [| reflexivity].
  destruct (echo (model res)); simpl; [| reflexivity].
  destruct (Flatten.isolate_echo res) as [e |]; simpl; [| reflexivity].
  destruct (Flatten.completion n e) as [[t s] |]; simpl; [| reflexivity].
  destruct (Flatten.append "tokens" t results) as [results1 |]; simpl; [| reflexivity].
  destruct (math_exp s) as [q |]; simpl; [| reflexivity].
  now destruct (Flatten.append "probability" q results1).
Qed.

Lemma cells_of_selection (n : Z) (res : res_t) (t : pyval) (s : float) (q : pyval) :
  selection n res = Ok (t, s) -> math_exp s = Ok q -> cells n res = Ok (t, q).
Proof. intros Hs Hq. unfold cells. rewrite Hs. simpl. now rewrite Hq. Qed.

Lemma cells_of_turn (n : Z) (res : res_t) (t q : pyval) :
  cells n res = Ok (t, q) -> tokens_cell n res = t /\ probability_cell n res = q.
Proof. intros H. unfold tokens_cell, probability_cell. now rewrite H. Qed.

Lemma later_turn (n : Z) (flt : option string) (d d' : dict (list pyval)) (a' : bool)
  (res : res_t) :
  Flatten.filtered_out flt res = false ->
  step n flt (d, true) res = Ok (d', a') ->
  a' = true /\ extends d d' (fun c => turn_cells n c res) /\ turn_passes n res.
Proof.
  intros Hf. rewrite (step_retained _ _ _ _ Hf). unfold Flatten.copy_fields.
  destruct (Flatten.append "index" _ d) as [d1 |] eqn:E1; simpl; [| discriminate].
  destruct (Flatten.append "engine" _ d1) as [d2 |] eqn:E2; simpl; [| discriminate].
  destruct (Flatten.populate_prompt_fill_values _ d2) as [d3 |] eqn:E3; simpl; [| discriminate].
  destruct (echo (model res)) eqn:Eecho; simpl; [| discriminate].
  destruct (selection n res) as [[t s] |] eqn:Es; simpl; [| discriminate].
  destruct (Flatten.append "tokens" t d3) as [d4 |] eqn:E4; simpl; [| discriminate].
  destruct (math_exp s) as [q |] eqn:Eq; simpl; [| discriminate].
  destruct (Flatten.append "probability" q d4) as [d5 |] eqn:E5; simpl; [| discriminate].
  pose proof (cells_of_selection _ _ _ _ _ Es Eq) as Ec.
  intros [= <- <-]. split; [reflexivity |]. split.
  - apply append_extends in E1, E2, E4, E5. apply populate_extends in E3.
    pose proof (extends_trans _ _ _ _ _
                  (extends_trans _ _ _ _ _
                     (extends_trans _ _ _ _ _ (extends_trans _ _ _ _ _ E1 E2) E3) E4) E5) as H.
    eapply extends_ext; [| exact H]. intros c. simpl.
    unfold turn_cells, cells_before, cells_after.
    destruct (cells_of_turn _ _ _ _ Ec) as [-> ->].
    rewrite !(String.eqb_sym c). now rewrite <- !app_assoc.
  - split; [assumption | eauto].
Qed.

Lemma first_turn (n : Z) (flt : option string) (d' : dict (list pyval)) (a' : bool)
  (res : res_t) :
  Flatten.filtered_out flt res = false ->
  step n flt Flatten.initial res = Ok (d', a') ->
  a' = true
  /\ keys d' = fixed_columns ++ fresh_keys fixed_columns (fill_fields res)
  /\ (forall c column, find c d' = Some column -> column = first_turn_cells n c res)
  /\ turn_passes n res.
Proof.
  intros Hf. rewrite (step_retained _ _ _ _ Hf). unfold Flatten.copy_fields, Flatten.initial.
  cbn [Flatten.append get find String.eqb Ascii.eqb Bool.eqb bind set app].
  set (d2 := [("index", [index (prompt (input res))]);
              ("engine", [VStr (engine (model res))]);
              ("tokens", []); ("probability", [])]).
  set (items := values (prompt (input res))).
  destruct (Flatten.populate_prompt_fill_values items _) as [d3 |] eqn:E3; simpl; [| discriminate].
  destruct (echo (model res)) eqn:Eecho; simpl; [| discriminate].
  destruct (selection n res) as [[t s] |] eqn:Es; simpl; [| discriminate].
  destruct (Flatten.append "tokens" t d3) as [d4 |] eqn:E4; simpl; [| discriminate].
  destruct (math_exp s) as [q |] eqn:Eq; simpl; [| discriminate].
  destruct (Flatten.append "probability" q d4) as [d5 |] eqn:E5; simpl; [| discriminate].
  pose proof (cells_of_selection _ _ _ _ _ Es Eq) as Ec.
  intros [= <- <-]. split; [reflexivity |].
  apply append_extends in E4, E5. apply populate_extends in E3.
  destruct (extends_trans _ _ _ _ _ (extends_trans _ _ _ _ _ E3 E4) E5) as [K F].
  split; [| split].
  - rewrite K, keys_add_prompt_fill_fields. reflexivity.
  - intros c column. rewrite F, find_add_prompt_fill_fields.
    destruct (cells_of_turn _ _ _ _ Ec) as [Ht Hq].
    unfold first_turn_cells, fill_fields, cells_before, cells_after. fold items.
    rewrite Ht, Hq, !(String.eqb_sym c).
    destruct (mem c (keys items)).
    + simpl. intros [= <-]. now rewrite <- app_assoc.
    + destruct ("index" =? c) eqn:Ei.
      { apply String.eqb_eq in Ei. subst c. simpl. intros [= <-]. now rewrite ?app_nil_r. }
      destruct ("engine" =? c) eqn:Ee.
      { apply String.eqb_eq in Ee. subst c. simpl. intros [= <-]. now rewrite ?app_nil_r. }
      destruct ("tokens" =? c) eqn:Et.
      { apply String.eqb_eq in Et. subst c. simpl. intros [= <-]. now rewrite ?app_nil_r. }
      destruct ("probability" =? c) eqn:Ep.
      { apply String.eqb_eq in Ep. subst c. simpl. intros [= <-]. now rewrite ?app_nil_r. }
      unfold d2. cbn [find]. rewrite Ei, Ee, Et, Ep. discriminate.
  - split; [assumption | eauto].
Qed.

(** ** The loop *)

Lemma for_each_records (n : Z) (flt : option string) (rs : list res_t) :
  forall st,
    Flatten.for_each n flt (map DRecord rs) st =
    (st' <- fold_state n flt rs st ;; Ok (st', map DRecord (map (after_turn flt) rs))).
Proof.
  induction rs as [| res rs IH]; intros st; simpl; [reflexivity |].
  unfold step. destruct (Flatten.body n flt st res) as [[st1 res1] |] eqn:E; simpl; [| reflexivity].
  rewrite IH. destruct (fold_state n flt rs st1); simpl; [| reflexivity].
  now rewrite (body_record _ _ _ _ _ _ E).
Qed.

Lemma run_unfold (p : path) (n : Z) (flt : option string) (fs : filesystem) (rs : list res_t) :
  archive_at p rs fs ->
  Flatten.run p n flt fs =
  (st <- fold_state n flt rs Flatten.initial ;;
   df <- Flatten.pd_DataFrame (fst st) ;;
   Ok (df, map DRecord (map (after_turn flt) rs))).
Proof.
  intros H. unfold Flatten.run. rewrite H. simpl. rewrite for_each_records.
  now destruct (fold_state n flt rs Flatten.initial).
Qed.

Lemma process_unfold (p : path) (n : Z) (flt : option string) (fs : filesystem)
  (rs : list res_t) :
  archive_at p rs fs ->
  process_mega_json_for_no_complete_prompt p n flt fs =
  (st <- fold_state n flt rs Flatten.initial ;; Flatten.pd_DataFrame (fst st)).
Proof.
  intros H. unfold process_mega_json_for_no_complete_prompt. rewrite (run_unfold _ _ _ _ _ H).
  destruct (fold_state n flt rs Flatten.initial) as [st |]; simpl; [| reflexivity].
  now destruct (Flatten.pd_DataFrame (fst st)).
Qed.

Lemma fold_state_app (n : Z) (flt : option string) (rs rs' : list res_t) :
  forall st,
    fold_state n flt (rs ++ rs') st = (st' <- fold_state n flt rs st ;; fold_state n flt rs' st').
Proof.
  induction rs as [| res rs IH]; intros st; simpl; [reflexivity |].
  destruct (step n flt st res); simpl; [apply IH | reflexivity].
Qed.

Lemma fold_state_retained (n : Z) (flt : option string) (rs : list res_t) :
  forall st, fold_state n flt rs st = fold_state n flt (retained flt rs) st.
Proof.
  induction rs as [| res rs IH]; intros st; simpl; [reflexivity |].
  destruct (Flatten.filtered_out flt res) eqn:E; simpl.
  - rewrite (step_filtered_out _ _ _ _ E). simpl. apply IH.
  - destruct (step n flt st res); simpl; [apply IH | reflexivity].
Qed.

Lemma retained_passes_filter (flt : option string) (rs : list res_t) (res : res_t) :
  In res (retained flt rs) <-> In res rs /\ Flatten.filtered_out flt res = false.
Proof. unfold retained. rewrite filter_In, negb_true_iff. reflexivity. Qed.

Lemma retained_app (flt : option string) (rs rs' : list res_t) :
  retained flt (rs ++ rs') = retained flt rs ++ retained flt rs'.
Proof. apply filter_app. Qed.

Lemma later_turns (n : Z) (flt : option string) (rs : list res_t) :
  forall (d d' : dict (list pyval)) (a' : bool),
    (forall res, In res rs -> Flatten.filtered_out flt res = false) ->
    fold_state n flt rs (d, true) = Ok (d', a') ->
    a' = true
    /\ extends d d' (fun c => flat_map (turn_cells n c) rs)
    /\ Forall (turn_passes n) rs.
Proof.
  induction rs as [| res rs IH]; intros d d' a' Hall; simpl.
  - intros [= <- <-]. split; [reflexivity |]. split; [apply extends_refl | constructor].
  - destruct (step n flt (d, true) res) as [[d1 a1] |] eqn:E; simpl; [| discriminate].
    intros H. apply later_turn in E; [| apply Hall; now left].
    destruct E as (-> & E & Hres).
    apply IH in H; [| intros r Hr; apply Hall; now right].
    destruct H as (-> & H & Hrs).
    split; [reflexivity |]. split; [| now constructor].
    exact (extends_trans _ _ _ _ _ E H).
Qed.

Lemma loop_without_turn (n : Z) (flt : option string) (rs : list res_t) (st : Flatten.state) :
  retained flt rs = [] -> fold_state n flt rs st = Ok st.
Proof. intros H. now rewrite fold_state_retained, H. Qed.

Lemma loop_columns (n : Z) (flt : option string) (rs : list res_t) (first : res_t)
  (rest : list res_t) (d : dict (list pyval)) (a : bool) :
  retained flt rs = first :: rest ->
  fold_state n flt rs Flatten.initial = Ok (d, a) ->
  keys d = fixed_columns ++ fresh_keys fixed_columns (fill_fields first)
  /\ (forall c column,
        find c d = Some column ->
        column = first_turn_cells n c first ++ flat_map (turn_cells n c) rest)
  /\ Forall (turn_passes n) (first :: rest).
Proof.
  intros Hret. rewrite fold_state_retained, Hret. simpl.
  assert (Hall : forall res, In res (first :: rest) -> Flatten.filtered_out flt res = false).
  { intros res Hres. rewrite <- Hret in Hres. now apply retained_passes_filter in Hres. }
  destruct (step n flt Flatten.initial first) as [[d1 a1] |] eqn:E; simpl; [| discriminate].
  intros H. apply first_turn in E; [| apply Hall; now left].
  destruct E as (-> & K1 & F1 & Hfirst).
  apply later_turns in H; [| intros r Hr; apply Hall; now right].
  destruct H as (_ & [K F] & Hrest).
  split; [now rewrite K |]. split; [| now constructor].
  intros c column. rewrite F. destruct (find c d1) as [column1 |] eqn:E1; simpl; [| discriminate].
  intros [= <-]. now rewrite (F1 _ _ E1).
Qed.

Lemma DataFrame_columns (d : dict (list pyval)) (df : Flatten.DataFrame) :
  Flatten.pd_DataFrame d = Ok df ->
  df = d /\ forall c column, find c d = Some column -> List.length column = Flatten.rows d.
Proof.
  unfold Flatten.pd_DataFrame, Flatten.rows. destruct d as [| [k0 column0] others].
  - intros [= <-]. split; [reflexivity |]. discriminate.
  - destruct (forallb _ others) eqn:E; [| discriminate].
    intros [= <-]. split; [reflexivity |]. intros c column H.
    apply find_In in H. destruct H as [[= _ <-] | H]; [reflexivity |].
    rewrite forallb_forall in E. apply E in H. simpl in H. now apply Nat.eqb_eq in H.
Qed.

(** ** Records that agree on their fill fields *)

Lemma mem_ext (c : string) (l l' : list string) :
  (forall k, In k l <-> In k l') -> mem c l = mem c l'.
Proof.
  intros H. destruct (mem c l') eqn:E.
  - apply mem_In. apply H. now apply mem_In.
  - destruct (mem c l) eqn:E'; [| reflexivity].
    apply mem_In, H, mem_In in E'. congruence.
Qed.

Lemma fresh_keys_incl (ks : list string) :
  forall seen c, In c (fresh_keys seen ks) -> In c ks.
Proof.
  induction ks as [| k ks IH]; intros seen c; simpl; [tauto |].
  destruct (mem k seen); simpl.
  - intros H. right. eapply IH, H.
  - intros [-> | H]; [now left | right; eapply IH, H].
Qed.

Lemma cells_filled_find (c : string) (items : dict pyval) :
  NoDup (keys items) ->
  cells_filled c items = match find c items with Some v => [v] | None => [] end.
Proof.
  unfold cells_filled. induction items as [| [k v] items IH]; simpl; [reflexivity |].
  intros H. inversion H as [| ? ? Hk Hitems]; subst.
  destruct (k =? c) eqn:E; simpl; [| now apply IH].
  apply String.eqb_eq in E. subst c. rewrite (IH Hitems).
  destruct (find k items) eqn:Ef; [| reflexivity].
  exfalso. apply Hk. apply mem_In. change (map fst items) with (keys items).
  rewrite find_mem. now rewrite Ef.
Qed.

Lemma cells_filled_length (c : string) (res : res_t) :
  NoDup (fill_fields res) ->
  List.length (cells_filled c (values (prompt (input res)))) = Nat.b2n (mem c (fill_fields res)).
Proof.
  intros H. rewrite (cells_filled_find _ _ H). unfold fill_fields. rewrite find_mem.
  now destruct (find c (values (prompt (input res)))).
Qed.

Lemma flat_map_constant_length {A B : Type} (f : A -> list B) (k : nat) (l : list A) :
  (forall x, In x l -> List.length (f x) = k) ->
  List.length (flat_map f l) = k * List.length l.
Proof.
  induction l as [| x l IH]; intros H; simpl; [lia |].
  rewrite length_app, IH by (intros; apply H; now right).
  rewrite (H x) by now left. lia.
Qed.

Lemma flat_map_singletons {A B : Type} (f : A -> list B) (g : A -> B) (l : list A) :
  (forall x, In x l -> f x = [g x]) -> flat_map f l = map g l.
Proof.
  induction l as [| x l IH]; intros H; simpl; [reflexivity |].
  rewrite (H x) by now left. rewrite IH by (intros; apply H; now right). reflexivity.
Qed.

Lemma turn_cells_length (n : Z) (c : string) (res : res_t) :
  NoDup (fill_fields res) ->
  List.length (turn_cells n c res) =
  Nat.b2n (c =? "index") + Nat.b2n (c =? "engine") + Nat.b2n (mem c (fill_fields res))
  + Nat.b2n (c =? "tokens") + Nat.b2n (c =? "probability").
Proof.
  intros H. unfold turn_cells, cells_before, cells_after.
  rewrite !length_app, (cells_filled_length _ _ H).
  destruct (c =? "index"), (c =? "engine"), (c =? "tokens"), (c =? "probability"); simpl; lia.
Qed.

Lemma first_turn_cells_length (n : Z) (c : string) (res : res_t) :
  NoDup (fill_fields res) ->
  List.length (first_turn_cells n c res) =
  (if mem c (fill_fields res) then 1
   else Nat.b2n (c =? "index") + Nat.b2n (c =? "engine"))
  + Nat.b2n (c =? "tokens") + Nat.b2n (c =? "probability").
Proof.
  intros H. unfold first_turn_cells, cells_before, cells_after.
  rewrite !length_app, (cells_filled_length _ _ H).
  destruct (mem c (fill_fields res)), (c =? "index"), (c =? "engine"),
    (c =? "tokens"), (c =? "probability"); simpl; lia.
Qed.

Lemma is_fixed_cases (c : string) :
  is_fixed c = (c =? "index") || (c =? "engine") || (c =? "tokens") || (c =? "probability").
Proof.
  unfold is_fixed, fixed_columns. cbn [existsb]. now rewrite orb_false_r, !orb_assoc.
Qed.

(** A record whose fill fields avoid the four names of line 69 adds one
    cell to each column, and so does the first record when its fill fields
    avoid ["tokens"] and ["probability"]. *)
Lemma turn_cells_cell (n : Z) (c : string) (res : res_t) :
  NoDup (fill_fields res) ->
  mem c (fill_fields res) = negb (is_fixed c) ->
  turn_cells n c res = [cell n c res].
Proof.
  intros H Hc. unfold turn_cells, cell. rewrite (cells_filled_find _ _ H).
  unfold fill_fields in Hc. rewrite find_mem, is_fixed_cases in Hc.
  unfold cells_before, cells_after.
  destruct (find c (values (prompt (input res)))) as [v |].
  - symmetry in Hc. apply negb_true_iff in Hc. apply orb_false_iff in Hc as [Hc Hp].
    apply orb_false_iff in Hc as [Hc Ht]. apply orb_false_iff in Hc as [Hi He].
    now rewrite Hi, He, Ht, Hp.
  - symmetry in Hc. apply negb_false_iff in Hc.
    destruct (c =? "index") eqn:Ei.
    { apply String.eqb_eq in Ei. now subst c. }
    destruct (c =? "engine") eqn:Ee.
    { apply String.eqb_eq in Ee. now subst c. }
    destruct (c =? "tokens") eqn:Et.
    { apply String.eqb_eq in Et. now subst c. }
    destruct (c =? "probability") eqn:Ep; [reflexivity | discriminate].
Qed.

Lemma first_turn_cells_cell (n : Z) (c : string) (res : res_t) :
  NoDup (fill_fields res) ->
  mem "tokens" (fill_fields res) = false ->
  mem "probability" (fill_fields res) = false ->
  (mem c (fill_fields res) = false -> is_fixed c = true) ->
  first_turn_cells n c res = [cell n c res].
Proof.
  intros H Ht Hp Hc. unfold first_turn_cells, cell. rewrite (cells_filled_find _ _ H).
  destruct (mem c (fill_fields res)) eqn:Hm.
  - unfold fill_fields in Hm. rewrite find_mem in Hm.
    destruct (find c (values (prompt (input res)))) as [v |] eqn:Ef; [| discriminate].
    unfold cells_after, fill_fields in *. rewrite find_mem in Ht, Hp.
    destruct (c =? "tokens") eqn:Ect.
    { apply String.eqb_eq in Ect. subst c. rewrite Ef in Ht. discriminate. }
    destruct (c =? "probability") eqn:Ecp; [| reflexivity].
    apply String.eqb_eq in Ecp. subst c. rewrite Ef in Hp. discriminate.
  - specialize (Hc eq_refl). rewrite is_fixed_cases in Hc.
    unfold fill_fields in Hm. rewrite find_mem in Hm.
    destruct (find c (values (prompt (input res)))); [discriminate |].
    unfold cells_before, cells_after.
    destruct (c =? "index") eqn:Ei.
    { apply String.eqb_eq in Ei. now subst c. }
    destruct (c =? "engine") eqn:Ee.
    { apply String.eqb_eq in Ee. now subst c. }
    destruct (c =? "tokens") eqn:Ect.
    { apply String.eqb_eq in Ect. now subst c. }
    destruct (c =? "probability") eqn:Ecp; [reflexivity | discriminate].
Qed.

Lemma fixed_column_exists (d : dict (list pyval)) (others : list string) (c : string) :
  keys d = fixed_columns ++ others -> is_fixed c = true -> exists column, find c d = Some column.
Proof.
  intros K Hc. assert (mem c (keys d) = true) as H.
  { rewrite K, mem_app. unfold is_fixed in Hc. unfold mem. now rewrite Hc. }
  rewrite find_mem in H. destruct (find c d) as [column |]; [eauto | discriminate].
Qed.

Lemma column_is_fixed_or_filled (d : dict (list pyval)) (first : res_t) (c : string)
  (column : list pyval) :
  keys d = fixed_columns ++ fresh_keys fixed_columns (fill_fields first) ->
  find c d = Some column ->
  mem c (fill_fields first) = false -> is_fixed c = true.
Proof.
  intros K Hc Hm. assert (mem c (keys d) = true) as H by (rewrite find_mem; now rewrite Hc).
  rewrite K, mem_app in H. apply orb_true_iff in H as [H | H]; [exact H |].
  apply mem_In, fresh_keys_incl, mem_In in H. congruence.
Qed.

Section UniformArchive.

Variables (n : Z) (flt : option string) (rs : list res_t).
Variables (first : res_t) (rest : list res_t).
Variables (d : dict (list pyval)) (a : bool).

Hypothesis Huniform : uniform_fill_fields flt rs.
Hypothesis Hretained : retained flt rs = first :: rest.
Hypothesis Hloop : fold_state n flt rs Flatten.initial = Ok (d, a).

Lemma uniform_NoDup (res : res_t) : In res (first :: rest) -> NoDup (fill_fields res).
Proof. intros H. apply Huniform. now rewrite Hretained. Qed.

Lemma uniform_mem (c : string) (res : res_t) :
  In res (first :: rest) -> mem c (fill_fields res) = mem c (fill_fields first).
Proof.
  intros H. apply mem_ext. apply Huniform; rewrite Hretained; [exact H | now left].
Qed.

Lemma uniform_column_length (c : string) (column : list pyval) :
  find c d = Some column ->
  List.length column =
  ((if mem c (fill_fields first) then 1
    else Nat.b2n (c =? "index") + Nat.b2n (c =? "engine"))
   + Nat.b2n (c =? "tokens") + Nat.b2n (c =? "probability"))
  + (Nat.b2n (c =? "index") + Nat.b2n (c =? "engine") + Nat.b2n (mem c (fill_fields first))
     + Nat.b2n (c =? "tokens") + Nat.b2n (c =? "probability")) * List.length rest.
Proof.
  intros Hc. destruct (loop_columns _ _ _ _ _ _ _ Hretained Hloop) as (_ & F & _).
  rewrite (F _ _ Hc), length_app.
  rewrite first_turn_cells_length by (apply uniform_NoDup; now left).
  f_equal. apply flat_map_constant_length. intros res Hres.
  rewrite turn_cells_length by (apply uniform_NoDup; now right).
  now rewrite uniform_mem by now right.
Qed.

(** Columns of one length leave no room for a fill field named
    ["tokens"] or ["probability"], and for one named ["index"] or
    ["engine"] only in a table of one row. *)
Lemma uniform_lengths :
  (forall c column, find c d = Some column -> List.length column = Flatten.rows d) ->
  mem "tokens" (fill_fields first) = false
  /\ mem "probability" (fill_fields first) = false
  /\ Flatten.rows d = S (List.length rest)
  /\ (rest = []
      \/ (mem "index" (fill_fields first) = false
          /\ mem "engine" (fill_fields first) = false)).
Proof.
  intros Hrows. destruct (loop_columns _ _ _ _ _ _ _ Hretained Hloop) as (K & _ & _).
  destruct (fixed_column_exists d _ "index" K eq_refl) as [ci Ei].
  destruct (fixed_column_exists d _ "engine" K eq_refl) as [ce Ee].
  destruct (fixed_column_exists d _ "tokens" K eq_refl) as [ct Et].
  destruct (fixed_column_exists d _ "probability" K eq_refl) as [cp Ep].
  pose proof (uniform_column_length _ _ Ei) as Li. rewrite (Hrows _ _ Ei) in Li.
  pose proof (uniform_column_length _ _ Ee) as Le. rewrite (Hrows _ _ Ee) in Le.
  pose proof (uniform_column_length _ _ Et) as Lt. rewrite (Hrows _ _ Et) in Lt.
  pose proof (uniform_column_length _ _ Ep) as Lp. rewrite (Hrows _ _ Ep) in Lp.
  assert (rest = [] <-> List.length rest = 0) as Hnil
    by (destruct rest; simpl; split; intros; (reflexivity || discriminate)).
  rewrite Hnil.
  destruct (mem "index" (fill_fields first)), (mem "engine" (fill_fields first)),
    (mem "tokens" (fill_fields first)), (mem "probability" (fill_fields first));
    cbn in Li, Le, Lt, Lp; repeat split; try lia; try reflexivity.
Qed.

Lemma uniform_table (df : Flatten.DataFrame) :
  Flatten.pd_DataFrame d = Ok df ->
  Flatten.rows df = List.length (first :: rest)
  /\ (forall c column,
        Flatten.column c df = Some column -> column = map (cell n c) (first :: rest))
  /\ mem "tokens" (fill_fields first) = false
  /\ mem "probability" (fill_fields first) = false.
Proof.
  intros Hdf. apply DataFrame_columns in Hdf as [-> Hrows].
  destruct (uniform_lengths Hrows) as (Ht & Hp & Hr & Hrest).
  destruct (loop_columns _ _ _ _ _ _ _ Hretained Hloop) as (K & F & _).
  split; [exact Hr |]. split; [| now split].
  intros c column Hc. unfold Flatten.column in Hc. rewrite (F _ _ Hc). simpl.
  rewrite first_turn_cells_cell; try assumption.
  2:{ apply uniform_NoDup. now left. }
  2:{ exact (column_is_fixed_or_filled _ _ _ _ K Hc). }
  simpl. f_equal. destruct Hrest as [-> | [Hi He]]; [reflexivity |].
  apply flat_map_singletons. intros res Hres.
  apply turn_cells_cell; [apply uniform_NoDup; now right |].
  rewrite uniform_mem by now right.
  destruct (is_fixed c) eqn:Hfix; simpl.
  - rewrite is_fixed_cases in Hfix.
    destruct (c =? "index") eqn:E1; [apply String.eqb_eq in E1; now subst c |].
    destruct (c =? "engine") eqn:E2; [apply String.eqb_eq in E2; now subst c |].
    destruct (c =? "tokens") eqn:E3; [apply String.eqb_eq in E3; now subst c |].
    destruct (c =? "probability") eqn:E4; [apply String.eqb_eq in E4; now subst c |].
    discriminate.
  - destruct (mem c (fill_fields first)) eqn:Hm; [reflexivity |].
    rewrite (column_is_fixed_or_filled _ _ _ _ K Hc Hm) in Hfix. discriminate.
Qed.

End UniformArchive.

(** ** The table of an archive whose records agree on their fill fields *)

Lemma loop_passes (n : Z) (flt : option string) (rs : list res_t) (st : Flatten.state) :
  fold_state n flt rs Flatten.initial = Ok st -> Forall (turn_passes n) (retained flt rs).
Proof.
  intros H. destruct (retained flt rs) as [| first rest] eqn:E; [constructor |].
  destruct st as [d a]. now destruct (loop_columns _ _ _ _ _ _ _ E H) as (_ & _ & Hp).
Qed.

Lemma empty_table_column (c : string) (column : list pyval) :
  find c (fst Flatten.initial) = Some column -> column = [].
Proof.
  unfold Flatten.initial. cbn [fst find].
  destruct ("index" =? c); [now intros [= <-] |].
  destruct ("engine" =? c); [now intros [= <-] |].
  destruct ("tokens" =? c); [now intros [= <-] |].
  destruct ("probability" =? c); [now intros [= <-] | discriminate].
Qed.

Lemma table_of_uniform_archive (p : path) (fs : filesystem) (rs : list res_t) (n : Z)
  (flt : option string) (df : Flatten.DataFrame) :
  archive_at p rs fs ->
  uniform_fill_fields flt rs ->
  process_mega_json_for_no_complete_prompt p n flt fs = Ok df ->
  Flatten.rows df = List.length (retained flt rs)
  /\ (forall c column,
        Flatten.column c df = Some column -> column = map (cell n c) (retained flt rs))
  /\ (forall c, is_fixed c = true -> exists column, Flatten.column c df = Some column)
  /\ Forall (turn_passes n) (retained flt rs)
  /\ (forall res, In res (retained flt rs) ->
        mem "tokens" (fill_fields res) = false /\ mem "probability" (fill_fields res) = false).
Proof.
  intros Harchive Huniform. rewrite (process_unfold _ _ _ _ _ Harchive).
  destruct (fold_state n flt rs Flatten.initial) as [[d a] |] eqn:Hloop; simpl; [| discriminate].
  intros Hdf. pose proof (loop_passes _ _ _ _ Hloop) as Hpasses.
  destruct (retained flt rs) as [| first rest] eqn:Hretained.
  - rewrite (loop_without_turn _ _ _ _ Hretained) in Hloop. injection Hloop as <- <-.
    injection Hdf as <-. split; [reflexivity |]. split; [| split; [| split]].
    + intros c column H. now apply empty_table_column in H.
    + intros c Hc. now apply (fixed_column_exists _ []).
    + constructor.
    + intros res [].
  - destruct (uniform_table n flt rs first rest d a Huniform Hretained Hloop df Hdf)
      as (Hrows & Hcolumns & Ht & Hp).
    split; [exact Hrows |]. split; [exact Hcolumns |]. split; [| split; [exact Hpasses |]].
    + intros c Hc. destruct (loop_columns _ _ _ _ _ _ _ Hretained Hloop) as (K & _ & _).
      apply DataFrame_columns in Hdf as [-> _]. exact (fixed_column_exists _ _ _ K Hc).
    + intros res Hres.
      rewrite !(uniform_mem flt rs first rest Huniform Hretained _ res Hres). now split.
Qed.

Lemma cell_tokens (n : Z) (res : res_t) :
  mem "tokens" (fill_fields res) = false -> cell n "tokens" res = tokens_cell n res.
Proof.
  unfold fill_fields, cell. rewrite find_mem.
  now destruct (find "tokens" (values (prompt (input res)))).
Qed.

Lemma cell_probability (n : Z) (res : res_t) :
  mem "probability" (fill_fields res) = false ->
  cell n "probability" res = probability_cell n res.
Proof.
  unfold fill_fields, cell. rewrite find_mem.
  now destruct (find "probability" (values (prompt (input res)))).
Qed.

Lemma completion_passes (n : Z) (e : echo_logprobs_t) (t : pyval) (s : float) :
  Flatten.completion n e = Ok (t, s) ->
  (Z.to_nat n <= List.length (echo_tokens e))%nat
  /\ (Z.to_nat n <= List.length (echo_token_logprobs e))%nat
  /\ t = VStr (PyList.join "-" (last_entries n (echo_tokens e)))
  /\ s = backward_sum (last_entries n (echo_token_logprobs e)).
Proof.
  intros H.
  destruct (le_lt_dec (Z.to_nat n) (List.length (echo_tokens e))) as [Ht | Ht].
  2:{ rewrite completion_out_of_bounds in H by now left. discriminate. }
  destruct (le_lt_dec (Z.to_nat n) (List.length (echo_token_logprobs e))) as [Hl | Hl].
  2:{ rewrite completion_out_of_bounds in H by now right. discriminate. }
  rewrite (completion_in_bounds _ _ Ht Hl) in H. injection H as <- <-. auto.
Qed.




Lemma filter_idempotent {A : Type} (f : A -> bool) (l : list A) :
  List.filter f (List.filter f l) = List.filter f l.
Proof.
  induction l as [| x l IH]; simpl; [reflexivity |].
  destruct (f x) eqn:E; simpl; [rewrite E; now f_equal | exact IH].
Qed.

Lemma retained_by_descriptor (f : string) (rs : list res_t) :
  retained (Some f) rs = List.filter (fun res => prompt_descriptor (input res) =? f) rs.
Proof.
  unfold retained. apply filter_ext. intros res. simpl. apply negb_involutive.
Qed.

(** C5, as the code has it.  With the descriptor filter set to [f], the
    turn of a record with another descriptor ends without exception and
    leaves the state of the loop as it was, whatever the record holds: the
    table is the table of the archive of the records whose
    [prompt_descriptor] is [f].  When the retained records of the archive
    have the same fill fields (the invariant of the data model), the table
    has exactly one row per record whose [prompt_descriptor] is [f], in
    their order: each cell of each column is the cell of the record of
    that row, which is a record of the archive with the descriptor [f]. *)
Theorem flatten_filter (p : path) (fs : filesystem) (rs : list res_t) (n : Z) (f : string)
  (df : Flatten.DataFrame) :
  archive_at p rs fs ->
  process_mega_json_for_no_complete_prompt p n (Some f) fs = Ok df ->
  (forall res st, prompt_descriptor (input res) <> f -> step n (Some f) st res = Ok st)
  /\ (forall fs',
        archive_at p (List.filter (fun res => prompt_descriptor (input res) =? f) rs) fs' ->
        process_mega_json_for_no_complete_prompt p n (Some f) fs' = Ok df)
  /\ (uniform_fill_fields (Some f) rs ->
      Flatten.rows df
      = List.length (List.filter (fun res => prompt_descriptor (input res) =? f) rs)
      /\ (forall c column,
            Flatten.column c df = Some column ->
            List.length column = Flatten.rows df
            /\ Forall2 (fun res v =>
                          In res rs /\ prompt_descriptor (input res) = f /\ v = cell n c res)
                       (List.filter (fun res => prompt_descriptor (input res) =? f) rs)
                       column)).
Proof.
  intros Harchive Hdf. split; [| split].
  - intros res st Hres. apply step_filtered_out. simpl.
    apply negb_true_iff. now apply String.eqb_neq.
  - intros fs' Harchive'. rewrite <- Hdf.
    rewrite (process_unfold _ _ _ _ _ Harchive), (process_unfold _ _ _ _ _ Harchive').
    rewrite (fold_state_retained n (Some f) rs).
    rewrite (fold_state_retained n (Some f) (List.filter _ rs)).
    now rewrite !retained_by_descriptor, filter_idempotent.
  - intros Huniform.
    destruct (table_of_uniform_archive _ _ _ _ _ _ Harchive Huniform Hdf)
      as (Hrows & Hcolumns & _).
    rewrite retained_by_descriptor in Hrows, Hcolumns.
    split; [exact Hrows |]. intros c column Hc. rewrite (Hcolumns _ _ Hc). split.
    + now rewrite length_map, Hrows.
    + set (matching := List.filter (fun res => prompt_descriptor (input res) =? f) rs).
      assert (Hmatching : forall res, In res matching ->
                            In res rs /\ prompt_descriptor (input res) = f).
      { intros res Hres. apply filter_In in Hres as [Hin Hf].
        split; [exact Hin | now apply String.eqb_eq]. }
      clearbody matching. induction matching as [| res matching IH]; simpl; constructor.
      * destruct (Hmatching res (or_introl eq_refl)) as [Hin Hf]. auto.
      * apply IH. intros r Hr. apply Hmatching. now right.
Qed.

Lemma flatten_filter_witness :
  archive_at mega_path mixed_archive (archive_of mixed_archive)
  /\ process_mega_json_for_no_complete_prompt mega_path 1 (Some "accept")
       (archive_of mixed_archive) = Ok accept_table
  /\ Flatten.rows accept_table = 2
  /\ Flatten.column "index" accept_table = Some [VInt 1; VInt 3].
Proof.
  assert (Harchive : archive_at mega_path mixed_archive (archive_of mixed_archive))
    by reflexivity.
  assert (Hdf : process_mega_json_for_no_complete_prompt mega_path 1 (Some "accept")
                  (archive_of mixed_archive) = Ok accept_table)
    by (vm_compute; reflexivity).
  assert (Huniform : uniform_fill_fields (Some "accept") mixed_archive).
  { split.
    - intros r [<- | [<- | []]]; repeat constructor; simpl; tauto.
    - intros r r' [<- | [<- | []]] [<- | [<- | []]] k; tauto. }
  split; [exact Harchive |]. split; [exact Hdf |].
  destruct (flatten_filter mega_path (archive_of mixed_archive) mixed_archive 1 "accept"
              accept_table Harchive Hdf) as (_ & _ & Htable).
  split; [exact (proj1 (Htable Huniform)) | reflexivity].
Defined.

(** C5, as stated, fails: two records with the descriptor of the filter
    that disagree on their fill fields, which are named like columns of
    line 69, give a table of three rows. *)
Lemma filter_rows_exceed_matching_records :
  process_mega_json_for_no_complete_prompt mega_path 1 (Some "accept")
    (archive_of unlike_archive)
  = Ok unlike_table
  /\ List.length
       (List.filter (fun res => prompt_descriptor (input res) =? "accept") unlike_archive)
     = 2
  /\ Flatten.rows unlike_table = 3
  /\ Flatten.rows unlike_table
     <> List.length
          (List.filter (fun res => prompt_descriptor (input res) =? "accept") unlike_archive).
Proof.
  split; [vm_compute; reflexivity |]. split; [reflexivity |]. split; [reflexivity |].
  simpl. discriminate.
Qed.

(** ** Archives that flatten to a table *)

Lemma NoDup_fresh_keys (ks : list string) :
  forall seen, NoDup seen -> NoDup (seen ++ fresh_keys seen ks).
Proof.
  induction ks as [| k ks IH]; intros seen Hseen; simpl.
  - now rewrite app_nil_r.
  - destruct (mem k seen) eqn:E; [now apply IH |].
    change (k :: fresh_keys (seen ++ [k]) ks) with ([k] ++ fresh_keys (seen ++ [k]) ks).
    rewrite app_assoc. apply IH. apply NoDup_app; [assumption | repeat constructor; tauto |].
    intros x Hx [<- | []]. apply mem_In in Hx. congruence.
Qed.

Lemma find_of_entry {V : Type} (d : dict V) (k : string) (v : V) :
  NoDup (keys d) -> In (k, v) d -> find k d = Some v.
Proof.
  induction d as [| [k' v'] d IH]; simpl; [tauto |].
  intros Hnd Hin. inversion Hnd as [| ? ? Hk' Hd]; subst.
  destruct Hin as [[= -> ->] | Hin]; [now rewrite String.eqb_refl |].
  destruct (k' =? k) eqn:E; [| now apply IH].
  apply String.eqb_eq in E. subst k'. exfalso. apply Hk'.
  change k with (fst (k, v)). now apply in_map.
Qed.

Lemma DataFrame_succeeds (d : dict (list pyval)) (m : nat) :
  (forall k column, In (k, column) d -> List.length column = m) ->
  Flatten.pd_DataFrame d = Ok d.
Proof.
  intros H. unfold Flatten.pd_DataFrame. destruct d as [| [k0 column0] others]; [reflexivity |].
  replace (forallb _ others) with true; [reflexivity |].
  symmetry. apply forallb_forall. intros [k column] Hin. simpl. apply Nat.eqb_eq.
  rewrite (H k column), (H k0 column0); simpl; auto.
Qed.

Lemma cells_passes (n : Z) (res : res_t) (t q : pyval) :
  cells n res = Ok (t, q) ->
  exists s, selection n res = Ok (t, s) /\ math_exp s = Ok q.
Proof.
  unfold cells. destruct (selection n res) as [[t' s] |]; simpl; [| discriminate].
  destruct (math_exp s) as [q' |] eqn:E; simpl; [| discriminate].
  intros [= <- <-]. now exists s.
Qed.

(** Lines 84-96 end without [KeyError] when the fill fields of the
    record are columns already, or are about to be added by line 90. *)
Lemma copy_fields_succeeds (d : dict (list pyval)) (added : bool) (res : res_t) :
  (forall c, is_fixed c = true -> mem c (keys d) = true) ->
  (added = true -> forall k, In k (fill_fields res) -> mem k (keys d) = true) ->
  exists d',
    Flatten.copy_fields (d, added) res = Ok (d', true)
    /\ forall c, mem c (keys d) = true -> mem c (keys d') = true.
Proof.
  intros Hfixed Hfill. unfold Flatten.copy_fields.
  destruct (append_present "index" (index (prompt (input res))) d) as [d1 E1];
    [now apply Hfixed |].
  rewrite E1. simpl. pose proof (append_extends _ _ _ _ E1) as [K1 _].
  destruct (append_present "engine" (VStr (engine (model res))) d1) as [d2 E2];
    [rewrite K1; now apply Hfixed |].
  rewrite E2. simpl. pose proof (append_extends _ _ _ _ E2) as [K2 _].
  set (d2' := if added then d2
              else Flatten.add_prompt_fill_fields (values (prompt (input res))) d2).
  assert (Hkeys : forall c, mem c (keys d) = true -> mem c (keys d2') = true).
  { intros c Hc. unfold d2'. destruct added; [now rewrite K2, K1 |].
    rewrite keys_add_prompt_fill_fields, mem_app, K2, K1, Hc. reflexivity. }
  destruct (populate_succeeds (values (prompt (input res))) d2') as [d3 E3].
  { intros k Hk. unfold d2'. destruct added eqn:Ea.
    - rewrite K2, K1. now apply Hfill.
    - rewrite find_mem, find_add_prompt_fill_fields. apply mem_In in Hk. now rewrite Hk. }
  rewrite E3. simpl. pose proof (populate_extends _ _ _ E3) as [K3 _].
  exists d3. split; [reflexivity |]. intros c Hc. rewrite K3. now apply Hkeys.
Qed.

Lemma turn_succeeds (n : Z) (flt : option string) (d : dict (list pyval)) (added : bool)
  (res : res_t) :
  Flatten.filtered_out flt res = false ->
  turn_passes n res ->
  (forall c, is_fixed c = true -> mem c (keys d) = true) ->
  (added = true -> forall k, In k (fill_fields res) -> mem k (keys d) = true) ->
  exists d', step n flt (d, added) res = Ok (d', true).
Proof.
  intros Hf (Hecho & t & q & Hcells) Hfixed Hfill.
  apply cells_passes in Hcells as (s & Hs & Hq).
  rewrite (step_retained _ _ _ _ Hf).
  destruct (copy_fields_succeeds d added res Hfixed Hfill) as (d3 & E3 & Hkeys).
  rewrite E3. simpl. rewrite Hecho, Hs. simpl.
  destruct (append_present "tokens" t d3) as [d4 E4]; [now apply Hkeys, Hfixed |].
  rewrite E4, Hq. simpl. pose proof (append_extends _ _ _ _ E4) as [K4 _].
  destruct (append_present "probability" q d4) as [d5 E5];
    [rewrite K4; now apply Hkeys, Hfixed |].
  rewrite E5. simpl. eauto.
Qed.

Lemma later_turns_succeed (n : Z) (flt : option string) (rs : list res_t) :
  forall d : dict (list pyval),
    (forall res, In res rs -> Flatten.filtered_out flt res = false) ->
    (forall res, In res rs -> turn_passes n res) ->
    (forall c, is_fixed c = true -> mem c (keys d) = true) ->
    (forall res k, In res rs -> In k (fill_fields res) -> mem k (keys d) = true) ->
    exists d', fold_state n flt rs (d, true) = Ok (d', true).
Proof.
  induction rs as [| res rs IH]; intros d Hf Hp Hfixed Hfill; simpl; [eauto |].
  destruct (turn_succeeds n flt d true res) as [d1 E]; auto using in_eq.
  { intros _ k Hk. apply (Hfill res); simpl; auto. }
  rewrite E. simpl.
  destruct (later_turn _ _ _ _ _ _ (Hf res (in_eq _ _)) E) as (_ & [K _] & _).
  apply IH; try (intros; rewrite ?K; eauto using in_cons).
Qed.

(** An archive whose retained records have echo, enough entries, and
    the same fill fields, none of them named like a column of line 69,
    flattens to a table. *)
Lemma flatten_succeeds (p : path) (fs : filesystem) (rs : list res_t) (n : Z)
  (flt : option string) :
  archive_at p rs fs ->
  uniform_fill_fields flt rs ->
  (forall res, In res (retained flt rs) ->
     turn_passes n res /\ forall k, In k (fill_fields res) -> is_fixed k = false) ->
  exists df, process_mega_json_for_no_complete_prompt p n flt fs = Ok df.
Proof.
  intros Harchive Huniform Hwf. rewrite (process_unfold _ _ _ _ _ Harchive).
  destruct (retained flt rs) as [| first rest] eqn:Hretained.
  - rewrite (loop_without_turn _ _ _ _ Hretained). simpl. eauto.
  - assert (Hall : forall res, In res (first :: rest) -> Flatten.filtered_out flt res = false).
    { intros res Hres. rewrite <- Hretained in Hres. now apply retained_passes_filter in Hres. }
    assert (Hloop : exists d, fold_state n flt rs Flatten.initial = Ok (d, true)).
    { rewrite fold_state_retained, Hretained. simpl.
      destruct (turn_succeeds n flt (fst Flatten.initial) false first) as [d1 E1];
        try (now apply Hall; left); try (now apply Hwf; left); try discriminate.
      { intros c Hc. exact Hc. }
      change (fst Flatten.initial, false) with Flatten.initial in E1. rewrite E1. simpl.
      destruct (first_turn _ _ _ _ _ (Hall first (in_eq _ _)) E1) as (_ & K1 & _).
      apply later_turns_succeed.
      - intros res Hres. apply Hall. now right.
      - intros res Hres. apply Hwf. now right.
      - intros c Hc. rewrite K1, mem_app. unfold is_fixed in Hc. unfold mem at 1.
        now rewrite Hc.
      - intros res k Hres Hk.
        assert (mem k (fill_fields first) = true) as Hk'.
        { rewrite <- (uniform_mem flt rs first rest Huniform Hretained k res) by now right.
          now apply mem_In. }
        rewrite K1, mem_app.
        rewrite fresh_keys_NoDup by (apply Huniform; rewrite Hretained; now left).
        apply orb_true_iff. right. apply mem_In, filter_In. split; [now apply mem_In |].
        apply negb_true_iff. apply (proj2 (Hwf first (in_eq _ _))). now apply mem_In. }
    destruct Hloop as [d Hloop]. rewrite Hloop. simpl.
    exists d. apply (DataFrame_succeeds d (S (List.length rest))).
    intros k column Hin.
    destruct (loop_columns _ _ _ _ _ _ _ Hretained Hloop) as (K & _ & _).
    assert (Hfind : find k d = Some column).
    { apply find_of_entry; [| exact Hin]. rewrite K. apply NoDup_fresh_keys.
      unfold fixed_columns. repeat constructor; simpl; intuition discriminate. }
    rewrite (uniform_column_length n flt rs first rest d true Huniform Hretained Hloop _ _ Hfind).
    destruct (mem k (fill_fields first)) eqn:Hm.
    + assert (is_fixed k = false) as Hk
        by (apply (proj2 (Hwf first (in_eq _ _))); now apply mem_In).
      rewrite is_fixed_cases in Hk.
      destruct (k =? "index"), (k =? "engine"), (k =? "tokens"), (k =? "probability");
        try discriminate; simpl; lia.
    + pose proof (column_is_fixed_or_filled _ _ _ _ K Hfind Hm) as Hk.
      rewrite is_fixed_cases in Hk.
      destruct (k =? "index") eqn:E1; [apply String.eqb_eq in E1; subst k; simpl; lia |].
      destruct (k =? "engine") eqn:E2; [apply String.eqb_eq in E2; subst k; simpl; lia |].
      destruct (k =? "tokens") eqn:E3; [apply String.eqb_eq in E3; subst k; simpl; lia |].
      destruct (k =? "probability") eqn:E4; [| discriminate].
      apply String.eqb_eq in E4; subst k; simpl; lia.
Qed.

(** The invariant of the data model is not checked, and without it the
    rows of the table need not be the retained records: two records that
    disagree on their fill fields can give three rows. *)
Lemma unlike_fill_fields_misalign :
  process_mega_json_for_no_complete_prompt mega_path 1 None (archive_of unlike_archive)
  = Ok unlike_table
  /\ List.length (retained None unlike_archive) = 2
  /\ Flatten.rows unlike_table = 3
  /\ ~ uniform_fill_fields None unlike_archive.
Proof.
  split; [vm_compute; reflexivity |]. split; [reflexivity |]. split; [reflexivity |].
  intros [_ H].
  specialize (H (sample 1 [("tokens", VStr "a")] "accept" true 0 sample_logprobs)
                (sample 2 [("index", VStr "b"); ("engine", VStr "c"); ("probability", VStr "d")]
                   "accept" true 0 sample_logprobs)
                (or_introl eq_refl) (or_intror (or_introl eq_refl)) "tokens").
  destruct H as [H _]. specialize (H (or_introl eq_refl)).
  simpl in H. intuition discriminate.
Qed.

(** ** The columns of the table *)

Lemma first_retained_of_prefix (flt : option string) (before after : list res_t)
  (first first' : res_t) (rest rest' : list res_t) :
  retained flt (before ++ after) = first :: rest ->
  retained flt before = first' :: rest' ->
  first' = first.
Proof. rewrite retained_app. intros H H'. rewrite H' in H. now injection H. Qed.

(** C8, as the code has it.  The columns of the table are the four of
    line 69 followed by the keys of the [values] mapping of the first
    retained record that are not one of these four names; a key that is
    one of them adds no column.  The columns are the same after every
    turn of the loop from the first retained record on. *)
Theorem flatten_columns (p : path) (fs : filesystem) (rs : list res_t) (n : Z)
  (flt : option string) (first : res_t) (rest : list res_t) (df : Flatten.DataFrame) :
  archive_at p rs fs ->
  retained flt rs = first :: rest ->
  NoDup (fill_fields first) ->
  process_mega_json_for_no_complete_prompt p n flt fs = Ok df ->
  Flatten.columns df
  = fixed_columns ++ List.filter (fun k => negb (is_fixed k)) (fill_fields first)
  /\ extra_columns df = List.filter (fun k => negb (is_fixed k)) (fill_fields first)
  /\ (forall before after st,
        rs = before ++ after ->
        retained flt before <> [] ->
        fold_state n flt before Flatten.initial = Ok st ->
        keys (fst st) = Flatten.columns df).
Proof.
  intros Harchive Hretained Hnodup. rewrite (process_unfold _ _ _ _ _ Harchive).
  destruct (fold_state n flt rs Flatten.initial) as [[d a] |] eqn:Hloop; simpl; [| discriminate].
  intros Hdf. apply DataFrame_columns in Hdf as [-> _].
  destruct (loop_columns _ _ _ _ _ _ _ Hretained Hloop) as (K & _ & _).
  rewrite (fresh_keys_NoDup _ Hnodup) in K.
  assert (Hcolumns : Flatten.columns d
                     = fixed_columns ++ List.filter (fun k => negb (is_fixed k)) (fill_fields first))
    by exact K.
  split; [exact Hcolumns |]. split.
  - unfold extra_columns. rewrite Hcolumns, filter_app, filter_idempotent. reflexivity.
  - intros before after [d' a'] -> Hbefore Hloop'.
    destruct (retained flt before) as [| first' rest'] eqn:E; [contradiction |].
    destruct (loop_columns _ _ _ _ _ _ _ E Hloop') as (K' & _ & _).
    rewrite (first_retained_of_prefix _ _ _ _ _ _ _ Hretained E) in K'.
    rewrite (fresh_keys_NoDup _ Hnodup) in K'. simpl. now rewrite K'.
Qed.

Lemma flatten_columns_witness :
  archive_at mega_path mixed_archive (archive_of mixed_archive)
  /\ process_mega_json_for_no_complete_prompt mega_path 1 (Some "accept")
       (archive_of mixed_archive) = Ok accept_table
  /\ Flatten.columns accept_table = ["index"; "engine"; "tokens"; "probability"; "name"]
  /\ extra_columns accept_table = ["name"].
Proof.
  assert (Harchive : archive_at mega_path mixed_archive (archive_of mixed_archive))
    by reflexivity.
  assert (Hdf : process_mega_json_for_no_complete_prompt mega_path 1 (Some "accept")
                  (archive_of mixed_archive) = Ok accept_table)
    by (vm_compute; reflexivity).
  split; [exact Harchive |]. split; [exact Hdf |].
  destruct (flatten_columns mega_path (archive_of mixed_archive) mixed_archive 1
              (Some "accept") _ _ accept_table Harchive eq_refl
              ltac:(repeat constructor; simpl; tauto) Hdf) as (Hcolumns & Hextra & _).
  split; [exact Hcolumns | exact Hextra].
Defined.

(** C8, as stated, fails: a record whose only fill field is named
    ["index"] gives a table without a column beyond the four of line 69. *)
Lemma fill_field_named_index :
  process_mega_json_for_no_complete_prompt mega_path 1 None (archive_of index_field_archive)
  = Ok index_field_table
  /\ map fill_fields (retained None index_field_archive) = [["index"]]
  /\ extra_columns index_field_table = []
  /\ extra_columns index_field_table <> ["index"].
Proof.
  split; [vm_compute; reflexivity |]. split; [reflexivity |]. split; [reflexivity |].
  discriminate.
Qed.

(** ** The records after the loop *)

Lemma after_turn_frame (flt : option string) (res : res_t) :
  input (after_turn flt res) = input res
  /\ model (after_turn flt res) = model res
  /\ choices_0 (output (after_turn flt res)) = choices_0 (output res)
  /\ (Flatten.filtered_out flt res = true -> after_turn flt res = res).
Proof.
  unfold after_turn. destruct (Flatten.filtered_out flt res); [now repeat split |].
  destruct (Flatten.isolate_echo res); repeat split; discriminate.
Qed.

(** C9, as the code has it.  Flattening leaves every field of every
    record of the archive as it was, except [output.echo_logprobs]: a
    record that the filter skips is unchanged, and a retained record gets
    under [output.echo_logprobs] the log-probabilities that lines 104-119
    select for it. *)
Theorem flatten_sets_echo_logprobs_only (p : path) (fs : filesystem) (rs : list res_t)
  (n : Z) (flt : option string) (df : Flatten.DataFrame) (mega' : list doc) :
  archive_at p rs fs ->
  Flatten.run p n flt fs = Ok (df, mega') ->
  mega' = map DRecord (map (after_turn flt) rs)
  /\ (forall res,
        In res rs ->
        input (after_turn flt res) = input res
        /\ model (after_turn flt res) = model res
        /\ choices_0 (output (after_turn flt res)) = choices_0 (output res)
        /\ (Flatten.filtered_out flt res = true -> after_turn flt res = res)
        /\ (Flatten.filtered_out flt res = false ->
            exists e, Flatten.isolate_echo res = Ok e
                      /\ echo_logprobs (output (after_turn flt res)) = Some e)).
Proof.
  intros Harchive. rewrite (run_unfold _ _ _ _ _ Harchive).
  destruct (fold_state n flt rs Flatten.initial) as [st |] eqn:Hloop; simpl; [| discriminate].
  destruct (Flatten.pd_DataFrame (fst st)); simpl; [| discriminate].
  intros [= _ <-]. split; [reflexivity |]. intros res Hres.
  destruct (after_turn_frame flt res) as (Hi & Hm & Hc & Hs).
  repeat (split; [assumption |]). intros Hf.
  pose proof (loop_passes _ _ _ _ Hloop) as Hpasses. rewrite Forall_forall in Hpasses.
  destruct (Hpasses res) as (_ & t & q & Hcells); [now apply retained_passes_filter |].
  unfold cells, selection in Hcells. unfold after_turn. rewrite Hf.
  destruct (Flatten.isolate_echo res) as [e |]; [| discriminate]. now exists e.
Qed.

Lemma flatten_sets_echo_logprobs_only_witness :
  archive_at mega_path example_archive (archive_of example_archive)
  /\ Flatten.run mega_path 2 None (archive_of example_archive)
     = Ok (example_table, map DRecord example_archive_after)
  /\ map DRecord example_archive_after = map DRecord (map (after_turn None) example_archive).
Proof.
  assert (Harchive : archive_at mega_path example_archive (archive_of example_archive))
    by reflexivity.
  assert (Hrun : Flatten.run mega_path 2 None (archive_of example_archive)
                 = Ok (example_table, map DRecord example_archive_after))
    by (vm_compute; reflexivity).
  split; [exact Harchive |]. split; [exact Hrun |].
  exact (proj1 (flatten_sets_echo_logprobs_only mega_path (archive_of example_archive)
                  example_archive 2 None example_table (map DRecord example_archive_after)
                  Harchive Hrun)).
Defined.

(** C9, as stated, fails: after the table of the example is built, the
    record of the archive has a field that it did not have. *)
Lemma flatten_changes_record :
  Flatten.run mega_path 2 None (archive_of example_archive)
  = Ok (example_table, map DRecord example_archive_after)
  /\ map echo_logprobs (map output example_archive) = [None]
  /\ map echo_logprobs (map output example_archive_after) = [Some (EchoWhole sample_logprobs)]
  /\ example_archive_after <> example_archive.
Proof.
  split; [vm_compute; reflexivity |]. split; [reflexivity |]. split; [reflexivity |].
  intros H. apply (f_equal (map (fun res => echo_logprobs (output res)))) in H.
  discriminate H.
Qed.

(** ** The salvage path *)

Lemma index_position (x : Z) (l : list Z) :
  In x l -> PyList.index l x = Ok (position x l).
Proof.
  induction l as [| y l IH]; simpl; [tauto |].
  destruct (Z.eqb_spec y x) as [-> | Hne]; [reflexivity |].
  intros [-> | H]; [contradiction |]. now rewrite (IH H).
Qed.

Lemma index_absent (x : Z) (l : list Z) :
  ~ In x l -> PyList.index l x = Raise (ValueError not_in_list).
Proof.
  induction l as [| y l IH]; simpl; [reflexivity |].
  intros H. destruct (Z.eqb_spec y x) as [-> | Hne]; [tauto |].
  rewrite IH by tauto. reflexivity.
Qed.

Lemma completion_ext (n : Z) (e e' : echo_logprobs_t) :
  echo_tokens e = echo_tokens e' ->
  echo_token_logprobs e = echo_token_logprobs e' ->
  Flatten.completion n e = Flatten.completion n e'.
Proof. intros Ht Hl. unfold Flatten.completion. now rewrite Ht, Hl. Qed.

Section Salvage.

Variable res : res_t.

Hypothesis Hgenerated : max_tokens (model res) <> 0%Z.
Hypothesis Hoffset :
  In (Z.of_nat (String.length (full_input (input res))))
     (text_offset (choices_0 (output res))).

Lemma isolate_echo_salvage :
  Flatten.isolate_echo res
  = Ok (EchoSliced (firstn (cutoff res) (tokens (choices_0 (output res))))
                   (firstn (cutoff res) (token_logprobs (choices_0 (output res))))).
Proof.
  unfold Flatten.isolate_echo. apply Z.eqb_neq in Hgenerated. rewrite Hgenerated.
  rewrite (index_position _ _ Hoffset). reflexivity.
Qed.

Lemma selection_pre_truncated (n : Z) : selection n (pre_truncated res) = selection n res.
Proof.
  unfold selection. rewrite isolate_echo_salvage.
  unfold Flatten.isolate_echo. simpl.
  apply Z.eqb_neq in Hgenerated. rewrite Hgenerated.
  change (position _ _) with (cutoff res). rewrite (index_position _ _ Hoffset).
  simpl. unfold PyList.slice_to. now rewrite !firstn_firstn, Nat.min_id.
Qed.

Lemma selection_pre_truncated_without_generation (n : Z) :
  selection n (without_generation (pre_truncated res)) = selection n res.
Proof.
  unfold selection. rewrite isolate_echo_salvage.
  unfold Flatten.isolate_echo. simpl.
  now rewrite (completion_ext n (EchoWhole _) (EchoSliced _ _) eq_refl eq_refl).
Qed.

Lemma selection_salvage (n : Z) (res' : res_t) :
  res' = pre_truncated res \/ res' = without_generation (pre_truncated res) ->
  selection n res' = selection n res.
Proof.
  intros [-> | ->];
    [apply selection_pre_truncated | apply selection_pre_truncated_without_generation].
Qed.

Lemma step_salvage (n : Z) (flt : option string) (st : Flatten.state) (res' : res_t) :
  res' = pre_truncated res \/ res' = without_generation (pre_truncated res) ->
  step n flt st res' = step n flt st res.
Proof.
  intros Hres'.
  pose proof (selection_salvage n res' Hres') as Hcells.
  assert (Hfilter : Flatten.filtered_out flt res' = Flatten.filtered_out flt res)
    by (destruct Hres' as [-> | ->]; reflexivity).
  assert (Hcopy : Flatten.copy_fields st res' = Flatten.copy_fields st res)
    by (destruct Hres' as [-> | ->]; reflexivity).
  assert (Hecho : echo (model res') = echo (model res))
    by (destruct Hres' as [-> | ->]; reflexivity).
  destruct (Flatten.filtered_out flt res) eqn:E.
  - now rewrite !step_filtered_out.
  - rewrite !step_retained by congruence. now rewrite Hcells, Hcopy, Hecho.
Qed.

End Salvage.

(** C2.  For a record with [max_tokens != 0] whose [text_offset] holds
    the character length of its [full_input], flattening gives the same
    ["tokens"] and ["probability"] cells, and the same table or the same
    exception, as for the record with its [tokens] and [token_logprobs]
    truncated beforehand to the entries before the position of that
    offset -- whether the truncated record keeps its [max_tokens] or has
    [max_tokens == 0]. *)
Theorem salvage_is_pre_truncation (p : path) (fs fs' : filesystem) (n : Z)
  (flt : option string) (before after : list res_t) (res res' : res_t) :
  max_tokens (model res) <> 0%Z ->
  In (Z.of_nat (String.length (full_input (input res))))
     (text_offset (choices_0 (output res))) ->
  res' = pre_truncated res \/ res' = without_generation (pre_truncated res) ->
  archive_at p (before ++ res :: after) fs ->
  archive_at p (before ++ res' :: after) fs' ->
  cells n res = cells n res'
  /\ process_mega_json_for_no_complete_prompt p n flt fs
     = process_mega_json_for_no_complete_prompt p n flt fs'.
Proof.
  intros Hgenerated Hoffset Hres' Harchive Harchive'. split.
  - unfold cells. now rewrite (selection_salvage res Hgenerated Hoffset n res' Hres').
  - rewrite (process_unfold _ _ _ _ _ Harchive), (process_unfold _ _ _ _ _ Harchive').
    rewrite !fold_state_app. simpl.
    destruct (fold_state n flt before Flatten.initial) as [st |]; simpl; [| reflexivity].
    now rewrite (step_salvage res Hgenerated Hoffset n flt st res' Hres').
Qed.

Lemma salvage_is_pre_truncation_witness :
  archive_at mega_path generated_archive (archive_of generated_archive)
  /\ archive_at mega_path truncated_archive (archive_of truncated_archive)
  /\ process_mega_json_for_no_complete_prompt mega_path 2 None (archive_of truncated_archive)
     = Ok generated_table
  /\ process_mega_json_for_no_complete_prompt mega_path 2 None (archive_of generated_archive)
     = process_mega_json_for_no_complete_prompt mega_path 2 None (archive_of truncated_archive).
Proof.
  split; [reflexivity |]. split; [reflexivity |]. split; [vm_compute; reflexivity |].
  refine (proj2 (salvage_is_pre_truncation mega_path (archive_of generated_archive)
                   (archive_of truncated_archive) 2 None
                   [sample 1 [("name", VStr "Bob")] "accept" true 0 sample_logprobs] []
                   (sample 3 [("name", VStr "Joe")] "accept" true 4 sample_logprobs_generated)
                   _ _ _ (or_introl eq_refl) eq_refl eq_refl)).
  - discriminate.
  - simpl. tauto.
Defined.

(** ** The first exception ends the loop *)

Lemma flatten_aborts (p : path) (fs : filesystem) (n : Z) (flt : option string)
  (before after : list res_t) (res : res_t) (st : Flatten.state) (e : pyerr) :
  archive_at p (before ++ res :: after) fs ->
  fold_state n flt before Flatten.initial = Ok st ->
  step n flt st res = Raise e ->
  process_mega_json_for_no_complete_prompt p n flt fs = Raise e.
Proof.
  intros Harchive Hbefore Hstep. rewrite (process_unfold _ _ _ _ _ Harchive).
  rewrite fold_state_app, Hbefore. simpl. now rewrite Hstep.
Qed.

Lemma loop_raises (n : Z) (flt : option string) (res : res_t) (rs : list res_t) :
  (forall st, raised (step n flt st res)) ->
  In res rs ->
  forall st, raised (fold_state n flt rs st).
Proof.
  intros Hres. induction rs as [| r rs IH]; intros Hin st; simpl; [contradiction |].
  destruct (step n flt st r) as [st' |] eqn:E; simpl.
  - destruct Hin as [-> | Hin]; [| now apply IH].
    destruct (Hres st) as [e He]. congruence.
  - now exists e.
Qed.

Lemma flatten_raises (p : path) (fs : filesystem) (n : Z) (flt : option string)
  (rs : list res_t) (res : res_t) :
  archive_at p rs fs ->
  In res rs ->
  (forall st, raised (step n flt st res)) ->
  raised (process_mega_json_for_no_complete_prompt p n flt fs).
Proof.
  intros Harchive Hin Hres. rewrite (process_unfold _ _ _ _ _ Harchive).
  destruct (loop_raises _ _ _ _ Hres Hin Flatten.initial) as [e He].
  rewrite He. now exists e.
Qed.

Lemma copy_fields_initial (res : res_t) :
  exists st, Flatten.copy_fields Flatten.initial res = Ok st.
Proof.
  unfold Flatten.copy_fields, Flatten.initial.
  cbn [Flatten.append get find String.eqb Ascii.eqb Bool.eqb bind set app].
  destruct (populate_succeeds (values (prompt (input res)))
              (Flatten.add_prompt_fill_fields (values (prompt (input res)))
                 [("index", [index (prompt (input res))]);
                  ("engine", [VStr (engine (model res))]);
                  ("tokens", []); ("probability", [])])) as [d H].
  - intros k Hk. rewrite find_mem, find_add_prompt_fill_fields.
    apply mem_In in Hk. now rewrite Hk.
  - rewrite H. simpl. eauto.
Qed.

Lemma first_retained_state (n : Z) (flt : option string) (before : list res_t) :
  retained flt before = [] -> fold_state n flt before Flatten.initial = Ok Flatten.initial.
Proof. apply loop_without_turn. Qed.

(** *** A record without echo *)

Lemma step_without_echo (n : Z) (flt : option string) (st st' : Flatten.state) (res : res_t) :
  Flatten.filtered_out flt res = false ->
  echo (model res) = false ->
  Flatten.copy_fields st res = Ok st' ->
  step n flt st res = Raise (Exception echo_required).
Proof.
  intros Hf He Hc. rewrite (step_retained _ _ _ _ Hf), Hc, He. now destruct st'.
Qed.

Lemma step_without_echo_raises (n : Z) (flt : option string) (res : res_t) :
  Flatten.filtered_out flt res = false ->
  echo (model res) = false ->
  forall st, raised (step n flt st res).
Proof.
  intros Hf He st. destruct (Flatten.copy_fields st res) as [st' |] eqn:Hc.
  - rewrite (step_without_echo _ _ _ _ _ Hf He Hc). now eexists.
  - rewrite (step_retained _ _ _ _ Hf), Hc. now eexists.
Qed.

(** C4, as the code has it.  An archive with a retained record whose
    [model.echo] is false gives no table: flattening raises.  The exception
    is the one of line 100 when the turns of the records before that record
    end without exception and lines 84-96 copy its fields without
    [KeyError], which is so for the first retained record of the archive;
    otherwise the exception of the earlier failure is raised. *)
Theorem flatten_without_echo (p : path) (fs : filesystem) (rs : list res_t) (n : Z)
  (flt : option string) :
  archive_at p rs fs ->
  (forall res,
     In res (retained flt rs) -> echo (model res) = false ->
     raised (process_mega_json_for_no_complete_prompt p n flt fs))
  /\ (forall before res after st st',
        rs = before ++ res :: after ->
        Flatten.filtered_out flt res = false ->
        echo (model res) = false ->
        fold_state n flt before Flatten.initial = Ok st ->
        Flatten.copy_fields st res = Ok st' ->
        process_mega_json_for_no_complete_prompt p n flt fs = Raise (Exception echo_required))
  /\ (forall before res after,
        rs = before ++ res :: after ->
        retained flt before = [] ->
        Flatten.filtered_out flt res = false ->
        echo (model res) = false ->
        process_mega_json_for_no_complete_prompt p n flt fs = Raise (Exception echo_required)).
Proof.
  intros Harchive. split; [| split].
  - intros res Hres He. apply retained_passes_filter in Hres as [Hin Hf].
    eapply flatten_raises; eauto using step_without_echo_raises.
  - intros before res after st st' -> Hf He Hbefore Hc.
    eapply flatten_aborts; eauto using step_without_echo.
  - intros before res after -> Hbefore Hf He.
    destruct (copy_fields_initial res) as [st' Hc].
    eapply flatten_aborts; eauto using step_without_echo, first_retained_state.
Qed.

Lemma flatten_without_echo_witness :
  archive_at mega_path [sound 1; silent 2; short 3] (archive_of [sound 1; silent 2; short 3])
  /\ process_mega_json_for_no_complete_prompt mega_path 1 None
       (archive_of [sound 1; silent 2; short 3])
     = Raise (Exception echo_required).
Proof.
  assert (Harchive : archive_at mega_path [sound 1; silent 2; short 3]
                       (archive_of [sound 1; silent 2; short 3])) by reflexivity.
  split; [exact Harchive |].
  refine (proj1 (proj2 (flatten_without_echo mega_path _ _ 1 None Harchive))
            [sound 1] (silent 2) [short 3] _ _ eq_refl eq_refl eq_refl _ _);
    vm_compute; reflexivity.
Defined.

(** C4, as stated, fails: the record without echo comes after a record
    whose turn raises [IndexError], and that one is the exception of the
    run. *)
Lemma earlier_failure_hides_missing_echo :
  In (silent 2) (retained None [short 1; silent 2])
  /\ echo (model (silent 2)) = false
  /\ process_mega_json_for_no_complete_prompt mega_path 1 None
       (archive_of [short 1; silent 2])
     = Raise (IndexError out_of_range)
  /\ process_mega_json_for_no_complete_prompt mega_path 1 None
       (archive_of [short 1; silent 2])
     <> Raise (Exception echo_required).
Proof.
  split; [simpl; tauto |]. split; [reflexivity |]. split; [vm_compute; reflexivity |].
  vm_compute. discriminate.
Qed.

(** *** A record whose offsets lack the length of the input *)

Lemma selection_unaligned (n : Z) (res : res_t) :
  max_tokens (model res) <> 0%Z ->
  ~ In (Z.of_nat (String.length (full_input (input res))))
       (text_offset (choices_0 (output res))) ->
  selection n res = Raise (ValueError not_in_list).
Proof.
  intros Hm Hoff. unfold selection, Flatten.isolate_echo.
  apply Z.eqb_neq in Hm. rewrite Hm, (index_absent _ _ Hoff). reflexivity.
Qed.

Lemma step_selection_raise (n : Z) (flt : option string) (st st' : Flatten.state)
  (res : res_t) (e : pyerr) :
  Flatten.filtered_out flt res = false ->
  echo (model res) = true ->
  selection n res = Raise e ->
  Flatten.copy_fields st res = Ok st' ->
  step n flt st res = Raise e.
Proof.
  intros Hf He Hcells Hc. rewrite (step_retained _ _ _ _ Hf), Hc, He, Hcells. now destruct st'.
Qed.

Lemma step_selection_raise_always (n : Z) (flt : option string) (res : res_t) (e : pyerr) :
  Flatten.filtered_out flt res = false ->
  selection n res = Raise e ->
  forall st, raised (step n flt st res).
Proof.
  intros Hf Hcells st. rewrite (step_retained _ _ _ _ Hf).
  destruct (Flatten.copy_fields st res) as [[results added] |]; simpl; [| now eexists].
  destruct (echo (model res)); simpl; [| now eexists].
  rewrite Hcells. now eexists.
Qed.

(** C6, as the code has it.  An archive with a retained record that has
    [max_tokens != 0] and whose [text_offset] lacks the character length of
    its [full_input] gives no table: flattening raises.  The exception is
    the [ValueError] of [list.index] when the record has [model.echo] true,
    the turns of the records before it end without exception and lines
    84-96 copy its fields without [KeyError], which is so for the first
    retained record of the archive; otherwise an earlier exception is
    raised. *)
Theorem flatten_offset_not_found (p : path) (fs : filesystem) (rs : list res_t) (n : Z)
  (flt : option string) :
  archive_at p rs fs ->
  (forall res,
     In res (retained flt rs) ->
     max_tokens (model res) <> 0%Z ->
     ~ In (Z.of_nat (String.length (full_input (input res))))
          (text_offset (choices_0 (output res))) ->
     raised (process_mega_json_for_no_complete_prompt p n flt fs))
  /\ (forall before res after st st',
        rs = before ++ res :: after ->
        Flatten.filtered_out flt res = false ->
        max_tokens (model res) <> 0%Z ->
        ~ In (Z.of_nat (String.length (full_input (input res))))
             (text_offset (choices_0 (output res))) ->
        echo (model res) = true ->
        fold_state n flt before Flatten.initial = Ok st ->
        Flatten.copy_fields st res = Ok st' ->
        process_mega_json_for_no_complete_prompt p n flt fs = Raise (ValueError not_in_list))
  /\ (forall before res after,
        rs = before ++ res :: after ->
        retained flt before = [] ->
        Flatten.filtered_out flt res = false ->
        max_tokens (model res) <> 0%Z ->
        ~ In (Z.of_nat (String.length (full_input (input res))))
             (text_offset (choices_0 (output res))) ->
        echo (model res) = true ->
        process_mega_json_for_no_complete_prompt p n flt fs = Raise (ValueError not_in_list)).
Proof.
  intros Harchive. split; [| split].
  - intros res Hres Hm Hoff. apply retained_passes_filter in Hres as [Hin Hf].
    eapply flatten_raises; eauto using step_selection_raise_always, selection_unaligned.
  - intros before res after st st' -> Hf Hm Hoff He Hbefore Hc.
    eapply flatten_aborts; eauto using step_selection_raise, selection_unaligned.
  - intros before res after -> Hbefore Hf Hm Hoff He.
    destruct (copy_fields_initial res) as [st' Hc].
    eapply flatten_aborts;
      eauto using step_selection_raise, selection_unaligned, first_retained_state.
Qed.

Lemma flatten_offset_not_found_witness :
  archive_at mega_path [sound 1; unaligned 2 true] (archive_of [sound 1; unaligned 2 true])
  /\ process_mega_json_for_no_complete_prompt mega_path 1 None
       (archive_of [sound 1; unaligned 2 true])
     = Raise (ValueError not_in_list).
Proof.
  assert (Harchive : archive_at mega_path [sound 1; unaligned 2 true]
                       (archive_of [sound 1; unaligned 2 true])) by reflexivity.
  split; [exact Harchive |].
  refine (proj1 (proj2 (flatten_offset_not_found mega_path _ _ 1 None Harchive))
            [sound 1] (unaligned 2 true) [] _ _ eq_refl eq_refl _ _ eq_refl _ _).
  - discriminate.
  - simpl. intros [H | [H | [H | [H | []]]]]; discriminate H.
  - vm_compute. reflexivity.
  - vm_compute. reflexivity.
Defined.

(** C6, as stated, fails: the record also lacks echo, and the exception
    of the run is the one of line 100. *)
Lemma missing_echo_hides_offset_not_found :
  In (unaligned 1 false) (retained None [unaligned 1 false])
  /\ max_tokens (model (unaligned 1 false)) <> 0%Z
  /\ ~ In (Z.of_nat (String.length (full_input (input (unaligned 1 false)))))
          (text_offset (choices_0 (output (unaligned 1 false))))
  /\ process_mega_json_for_no_complete_prompt mega_path 1 None
       (archive_of [unaligned 1 false])
     = Raise (Exception echo_required)
  /\ process_mega_json_for_no_complete_prompt mega_path 1 None
       (archive_of [unaligned 1 false])
     <> Raise (ValueError not_in_list).
Proof.
  split; [simpl; tauto |]. split; [discriminate |]. split.
  - simpl. intros [H | [H | [H | [H | []]]]]; discriminate H.
  - split; [vm_compute; reflexivity |]. vm_compute. discriminate.
Qed.

(** *** A record with too few entries *)

Lemma getitem_in_range {A : Type} (l : list A) (n i : Z) :
  (n <= Z.of_nat (List.length l))%Z ->
  In i (PyList.range 1 (n + 1)) ->
  exists x, PyList.getitem l (- i) = Ok x.
Proof.
  intros Hn Hi. rewrite range_from_1 in Hi. apply in_map_iff in Hi as (k & <- & Hk).
  apply in_seq in Hk. rewrite getitem_from_end.
  destruct (nth_error (rev l) k) as [x |] eqn:E; [now exists x |].
  apply nth_error_None in E. rewrite length_rev in E. lia.
Qed.

Lemma selection_short (n : Z) (res : res_t) (e : echo_logprobs_t) :
  Flatten.isolate_echo res = Ok e ->
  (Z.of_nat (List.length (echo_tokens e)) < n
   \/ Z.of_nat (List.length (echo_token_logprobs e)) < n)%Z ->
  selection n res = Raise (IndexError out_of_range).
Proof.
  intros He Hshort. unfold selection. rewrite He. simpl.
  apply completion_out_of_bounds. lia.
Qed.

(** C10, as the code has it.  When the token and log-probability
    sequences that lines 104-119 select for a record each have at least [n]
    entries, every subscript of the loop of lines 126-128 is in bounds and
    the loop ends without exception.  An archive with a retained record for
    which one of these sequences has fewer than [n] entries gives no table:
    flattening raises.  The exception is [IndexError] when the record has
    [model.echo] true, the turns of the records before it end without
    exception and lines 84-96 copy its fields without [KeyError], which is
    so for the first retained record of the archive; otherwise an earlier
    exception is raised. *)
Theorem flatten_tail_bounds (p : path) (fs : filesystem) (rs : list res_t) (n : Z)
  (flt : option string) :
  archive_at p rs fs ->
  (forall res e,
     Flatten.isolate_echo res = Ok e ->
     (n <= Z.of_nat (List.length (echo_tokens e)))%Z ->
     (n <= Z.of_nat (List.length (echo_token_logprobs e)))%Z ->
     (forall i, In i (PyList.range 1 (n + 1)) ->
                (exists t, PyList.getitem (echo_tokens e) (- i) = Ok t)
                /\ (exists l, PyList.getitem (echo_token_logprobs e) (- i) = Ok l))
     /\ exists t q, Flatten.completion n e = Ok (t, q))
  /\ (forall res e,
        In res (retained flt rs) ->
        Flatten.isolate_echo res = Ok e ->
        (Z.of_nat (List.length (echo_tokens e)) < n
         \/ Z.of_nat (List.length (echo_token_logprobs e)) < n)%Z ->
        raised (process_mega_json_for_no_complete_prompt p n flt fs))
  /\ (forall before res after e st st',
        rs = before ++ res :: after ->
        Flatten.filtered_out flt res = false ->
        Flatten.isolate_echo res = Ok e ->
        (Z.of_nat (List.length (echo_tokens e)) < n
         \/ Z.of_nat (List.length (echo_token_logprobs e)) < n)%Z ->
        echo (model res) = true ->
        fold_state n flt before Flatten.initial = Ok st ->
        Flatten.copy_fields st res = Ok st' ->
        process_mega_json_for_no_complete_prompt p n flt fs = Raise (IndexError out_of_range))
  /\ (forall before res after e,
        rs = before ++ res :: after ->
        retained flt before = [] ->
        Flatten.filtered_out flt res = false ->
        Flatten.isolate_echo res = Ok e ->
        (Z.of_nat (List.length (echo_tokens e)) < n
         \/ Z.of_nat (List.length (echo_token_logprobs e)) < n)%Z ->
        echo (model res) = true ->
        process_mega_json_for_no_complete_prompt p n flt fs = Raise (IndexError out_of_range)).
Proof.
  intros Harchive. split; [| split; [| split]].
  - intros res e _ Ht Hl. split.
    + intros i Hi. split; eapply getitem_in_range; eauto.
    + rewrite completion_in_bounds by lia. eauto.
  - intros res e Hres He Hshort. apply retained_passes_filter in Hres as [Hin Hf].
    eapply flatten_raises; eauto using step_selection_raise_always, selection_short.
  - intros before res after e st st' -> Hf He Hshort Hecho Hbefore Hc.
    eapply flatten_aborts; eauto using step_selection_raise, selection_short.
  - intros before res after e -> Hbefore Hf He Hshort Hecho.
    destruct (copy_fields_initial res) as [st' Hc].
    eapply flatten_aborts; eauto using step_selection_raise, selection_short, first_retained_state.
Qed.

Lemma flatten_tail_bounds_witness :
  archive_at mega_path [sound 1; sound 2] (archive_of [sound 1; sound 2])
  /\ process_mega_json_for_no_complete_prompt mega_path 5 None (archive_of [sound 1; sound 2])
     = Raise (IndexError out_of_range).
Proof.
  assert (Harchive : archive_at mega_path [sound 1; sound 2] (archive_of [sound 1; sound 2]))
    by reflexivity.
  split; [exact Harchive |].
  refine (proj2 (proj2 (proj2 (flatten_tail_bounds mega_path _ _ 5 None Harchive)))
            [] (sound 1) [sound 2] (EchoWhole sample_logprobs)
            eq_refl eq_refl eq_refl eq_refl _ eq_refl).
  left. simpl. lia.
Defined.

(** C10, as stated, fails: the record with too few entries comes after
    a record without echo, and the exception of the run is the one of
    line 100. *)
Lemma missing_echo_hides_index_error :
  In (short 2) (retained None [silent 1; short 2])
  /\ Flatten.isolate_echo (short 2) = Ok (EchoWhole no_logprobs)
  /\ (Z.of_nat (List.length (echo_tokens (EchoWhole no_logprobs))) < 1)%Z
  /\ process_mega_json_for_no_complete_prompt mega_path 1 None
       (archive_of [silent 1; short 2])
     = Raise (Exception echo_required)
  /\ process_mega_json_for_no_complete_prompt mega_path 1 None
       (archive_of [silent 1; short 2])
     <> Raise (IndexError out_of_range).
Proof.
  split; [simpl; tauto |]. split; [reflexivity |]. split; [simpl; lia |].
  split; [vm_compute; reflexivity |]. vm_compute. discriminate.
Qed.

(** ** The consolidator *)

Lemma path_eqb_refl (p : path) : path_eqb p p = true.
Proof. unfold path_eqb. now destruct (list_eq_dec string_dec p p). Qed.

Lemma read_write_file (p : path) (f : file) (fs : filesystem) :
  read_file p (write_file p f fs) = Some f.
Proof.
  induction fs as [| [q g] fs IH]; simpl.
  - now rewrite path_eqb_refl.
  - destruct (path_eqb q p) eqn:E; simpl; now rewrite E.
Qed.

Lemma load_saved_json (d : doc) (p : path) (fs : filesystem) :
  load_json p (save_json d p fs) = Ok d.
Proof. unfold load_json, save_json. now rewrite read_write_file. Qed.

Lemma load_each_all (fs : filesystem) (files : list path) (docs : list doc) :
  Forall2 (fun data_file d => load_json data_file fs = Ok d) files docs ->
  forall mega, Consolidate.load_each files fs mega = Ok (mega ++ docs).
Proof.
  induction 1 as [| data_file d files docs H _ IH]; intros mega; simpl.
  - now rewrite app_nil_r.
  - rewrite H. simpl. rewrite IH. now rewrite <- app_assoc.
Qed.

Lemma load_each_failure (fs : filesystem) (files : list path) (data_file : path) (e : pyerr) :
  In data_file files ->
  load_json data_file fs = Raise e ->
  forall mega, raised (Consolidate.load_each files fs mega).
Proof.
  intros Hin Hload. induction files as [| f files IH]; intros mega; simpl; [contradiction |].
  destruct (load_json f fs) as [d |] eqn:E; simpl; [| now eexists].
  destruct Hin as [-> | Hin]; [congruence | now apply IH].
Qed.

(** Lines 26-35 on a listing that is a list: the count of the files, and
    an archive of their contents in the order of the listing. *)
Lemma consolidate_of_list (fs : filesystem) (files : list path) (docs : list doc)
  (save_file_path : path) :
  Forall2 (fun data_file d => load_json data_file fs = Ok d) files docs ->
  Consolidate.consolidate (Consolidate.AList files) save_file_path fs
  = (save_json (DList docs) save_file_path fs, Ok (List.length files))
  /\ load_json save_file_path (save_json (DList docs) save_file_path fs) = Ok (DList docs)
  /\ List.length docs = List.length files.
Proof.
  intros H. unfold Consolidate.consolidate. simpl.
  rewrite (load_each_all _ _ _ H). simpl. split; [reflexivity |].
  split; [apply load_saved_json | symmetry; exact (Forall2_length H)].
Qed.

(** Lines 26-35 on a listing that is a list, one file of which does not
    deserialize: the exception, and the file system as it was. *)
Lemma consolidate_of_list_failure (fs : filesystem) (files : list path) (data_file : path)
  (e : pyerr) (save_file_path : path) :
  In data_file files ->
  load_json data_file fs = Raise e ->
  exists e', Consolidate.consolidate (Consolidate.AList files) save_file_path fs
             = (fs, Raise e').
Proof.
  intros Hin Hload. unfold Consolidate.consolidate. simpl.
  destruct (load_each_failure _ _ _ _ Hin Hload []) as [e' He']. rewrite He'. now exists e'.
Qed.

(** C3: what the code does.  [Path.glob] returns a generator, and line
    26 takes its [len]: for every folder the consolidator raises
    [TypeError] before it reads a file, returns no count and writes no
    archive.  So it does on a folder with one readable file, for which
    lines 26-35 on the list of the same files return 1 and write the
    archive. *)
Theorem consolidate_raises_TypeError :
  (forall (open_folder save_file_path : path) (fs : filesystem),
     consolidate_jsons_to_mega_json open_folder save_file_path fs
     = (fs, Raise (TypeError no_len)))
  /\ Consolidate.glob results_folder one_file = Consolidate.AGenerator [["results"; "a.json"]]
  /\ consolidate_jsons_to_mega_json results_folder mega_path one_file
     = (one_file, Raise (TypeError no_len))
  /\ Consolidate.consolidate (Consolidate.AList [["results"; "a.json"]]) mega_path one_file
     = (save_json (DList [DRecord (sound 1)]) mega_path one_file, Ok 1).
Proof.
  split; [intros; reflexivity |]. split; [reflexivity |]. split; [reflexivity |].
  apply (consolidate_of_list one_file [["results"; "a.json"]] [DRecord (sound 1)]).
  repeat constructor.
Qed.

(** C7: what the code does.  On a folder with a malformed file the
    consolidator leaves the file system as it was, but the exception that
    reaches the caller is the [TypeError] of line 26 and not the failure
    of the deserialization, which line 29 never attempts.  Lines 26-35 on
    the list of the same files raise that failure and write nothing. *)
Theorem consolidate_hides_malformed_file :
  Consolidate.glob results_folder broken_file
  = Consolidate.AGenerator [["results"; "a.json"]; ["results"; "run2"; "b.json"]]
  /\ load_json ["results"; "run2"; "b.json"] broken_file = Raise JSONDecodeError
  /\ consolidate_jsons_to_mega_json results_folder mega_path broken_file
     = (broken_file, Raise (TypeError no_len))
  /\ snd (consolidate_jsons_to_mega_json results_folder mega_path broken_file)
     <> Raise JSONDecodeError
  /\ Consolidate.consolidate
       (Consolidate.AList [["results"; "a.json"]; ["results"; "run2"; "b.json"]])
       mega_path broken_file
     = (broken_file, Raise JSONDecodeError).
Proof.
  split; [reflexivity |]. split; [reflexivity |]. split; [reflexivity |].
  split; [simpl; discriminate | reflexivity].
Qed.

(** * Further properties of the flattener *)

(** ** No retained record *)

(** When no record of the archive passes the filter -- the archive is
    empty, or every record has another descriptor -- the table has the
    four columns of line 69 and no row, whatever the records hold. *)
Theorem flatten_nothing_retained (p : path) (fs : filesystem) (rs : list res_t) (n : Z)
  (flt : option string) :
  archive_at p rs fs ->
  retained flt rs = [] ->
  process_mega_json_for_no_complete_prompt p n flt fs = Ok empty_table
  /\ Flatten.rows empty_table = 0.
Proof.
  intros Harchive Hretained. rewrite (process_unfold _ _ _ _ _ Harchive).
  rewrite (loop_without_turn _ _ _ _ Hretained). split; reflexivity.
Qed.

Lemma flatten_nothing_retained_witness :
  archive_at mega_path [silent 1; short 2] (archive_of [silent 1; short 2])
  /\ retained (Some "reject") [silent 1; short 2] = []
  /\ process_mega_json_for_no_complete_prompt mega_path 1 (Some "reject")
       (archive_of [silent 1; short 2]) = Ok empty_table.
Proof.
  split; [reflexivity |]. split; [reflexivity |].
  exact (proj1 (flatten_nothing_retained mega_path (archive_of [silent 1; short 2])
                  [silent 1; short 2] 1 (Some "reject") eq_refl eq_refl)).
Defined.

(** ** The columns of every table *)

Lemma fresh_keys_unseen (ks : list string) :
  forall seen k, In k (fresh_keys seen ks) -> mem k seen = false.
Proof.
  induction ks as [| k0 ks IH]; intros seen k; simpl; [tauto |].
  destruct (mem k0 seen) eqn:E; [apply IH |].
  intros [<- | H]; [exact E |].
  apply IH in H. rewrite mem_app in H. now apply orb_false_iff in H.
Qed.

(** Every table that the flattener returns starts with the columns
    [index], [engine], [tokens] and [probability], in this order; the
    columns after them have other names, and no two columns have the
    same name. *)
Theorem flatten_columns_start_fixed (p : path) (fs : filesystem) (rs : list res_t) (n : Z)
  (flt : option string) (df : Flatten.DataFrame) :
  archive_at p rs fs ->
  process_mega_json_for_no_complete_prompt p n flt fs = Ok df ->
  Flatten.columns df = fixed_columns ++ extra_columns df
  /\ NoDup (Flatten.columns df).
Proof.
  intros Harchive. rewrite (process_unfold _ _ _ _ _ Harchive).
  destruct (fold_state n flt rs Flatten.initial) as [[d a] |] eqn:Hloop; simpl; [| discriminate].
  intros Hdf. apply DataFrame_columns in Hdf as [-> _].
  assert (Hfixed : NoDup fixed_columns)
    by (unfold fixed_columns; repeat constructor; simpl; intuition discriminate).
  destruct (retained flt rs) as [| first rest] eqn:Hretained.
  - rewrite (loop_without_turn _ _ _ _ Hretained) in Hloop. injection Hloop as <- <-.
    split; [reflexivity | exact Hfixed].
  - destruct (loop_columns _ _ _ _ _ _ _ Hretained Hloop) as (K & _ & _).
    unfold extra_columns, Flatten.columns. rewrite K. split.
    + assert (E : List.filter (fun k => negb (is_fixed k))
                    (fresh_keys fixed_columns (fill_fields first))
                  = fresh_keys fixed_columns (fill_fields first)).
      { apply forallb_filter_id. apply forallb_forall. intros k Hk.
        apply fresh_keys_unseen in Hk. unfold is_fixed. unfold mem in Hk. now rewrite Hk. }
      rewrite filter_app, E. reflexivity.
    + now apply NoDup_fresh_keys.
Qed.

Lemma flatten_columns_start_fixed_witness :
  archive_at mega_path unlike_archive (archive_of unlike_archive)
  /\ process_mega_json_for_no_complete_prompt mega_path 1 None (archive_of unlike_archive)
     = Ok unlike_table
  /\ Flatten.columns unlike_table = fixed_columns ++ extra_columns unlike_table
  /\ NoDup (Flatten.columns unlike_table).
Proof.
  assert (Hdf : process_mega_json_for_no_complete_prompt mega_path 1 None
                  (archive_of unlike_archive) = Ok unlike_table)
    by (vm_compute; reflexivity).
  split; [reflexivity |]. split; [exact Hdf |].
  exact (flatten_columns_start_fixed mega_path (archive_of unlike_archive) unlike_archive
           1 None unlike_table eq_refl Hdf).
Defined.

(** ** The filter and the archive *)

Lemma step_same_filter (n : Z) (flt flt' : option string) (st : Flatten.state) (res : res_t) :
  Flatten.filtered_out flt res = Flatten.filtered_out flt' res ->
  step n flt st res = step n flt' st res.
Proof. intros H. unfold step, Flatten.body. now rewrite H. Qed.

Lemma fold_state_same_filter (n : Z) (flt flt' : option string) (rs : list res_t) :
  (forall res, In res rs -> Flatten.filtered_out flt res = Flatten.filtered_out flt' res) ->
  forall st, fold_state n flt rs st = fold_state n flt' rs st.
Proof.
  induction rs as [| res rs IH]; intros H st; simpl; [reflexivity |].
  rewrite (step_same_filter n flt flt') by (apply H; now left).
  destruct (step n flt' st res); simpl; [| reflexivity].
  apply IH. intros r Hr. apply H. now right.
Qed.

(** Flattening with the descriptor filter [f] gives the table, or the
    exception, of flattening without a filter the archive of the records
    whose [prompt_descriptor] is [f]. *)
Theorem flatten_filter_is_prefilter (p p' : path) (fs fs' : filesystem) (rs : list res_t)
  (n : Z) (f : string) :
  archive_at p rs fs ->
  archive_at p' (List.filter (fun res => prompt_descriptor (input res) =? f) rs) fs' ->
  process_mega_json_for_no_complete_prompt p n (Some f) fs
  = process_mega_json_for_no_complete_prompt p' n None fs'.
Proof.
  intros Harchive Harchive'.
  rewrite (process_unfold _ _ _ _ _ Harchive), (process_unfold _ _ _ _ _ Harchive').
  rewrite (fold_state_retained n (Some f) rs), retained_by_descriptor.
  rewrite (fold_state_same_filter n (Some f) None); [reflexivity |].
  intros res Hres. apply filter_In in Hres as [_ Hf]. simpl. now rewrite Hf.
Qed.

Lemma flatten_filter_is_prefilter_witness :
  archive_at mega_path mixed_archive (archive_of mixed_archive)
  /\ process_mega_json_for_no_complete_prompt mega_path 1 None
       (archive_of [sample 1 [("name", VStr "Bob")] "accept" true 0 sample_logprobs;
                    sample 3 [("name", VStr "Joe")] "accept" true 4 sample_logprobs_generated])
     = Ok accept_table
  /\ process_mega_json_for_no_complete_prompt mega_path 1 (Some "accept")
       (archive_of mixed_archive)
     = process_mega_json_for_no_complete_prompt mega_path 1 None
         (archive_of [sample 1 [("name", VStr "Bob")] "accept" true 0 sample_logprobs;
                      sample 3 [("name", VStr "Joe")] "accept" true 4
                        sample_logprobs_generated]).
Proof.
  split; [reflexivity |]. split; [vm_compute; reflexivity |].
  exact (flatten_filter_is_prefilter mega_path mega_path (archive_of mixed_archive)
           (archive_of [sample 1 [("name", VStr "Bob")] "accept" true 0 sample_logprobs;
                        sample 3 [("name", VStr "Joe")] "accept" true 4
                          sample_logprobs_generated])
           mixed_archive 1 "accept" eq_refl eq_refl).
Defined.

(** ** What the flattener reads of a record *)

Lemma step_same_inputs (n : Z) (flt : option string) (st : Flatten.state) (res res' : res_t) :
  same_inputs res res' -> step n flt st res = step n flt st res'.
Proof.
  intros (Hi & Hm & Hc).
  assert (Hf : Flatten.filtered_out flt res = Flatten.filtered_out flt res')
    by (unfold Flatten.filtered_out; now rewrite Hi).
  assert (Hs : selection n res = selection n res')
    by (unfold selection, Flatten.isolate_echo; now rewrite Hi, Hm, Hc).
  assert (Hcopy : Flatten.copy_fields st res = Flatten.copy_fields st res')
    by (unfold Flatten.copy_fields; now rewrite Hi, Hm).
  destruct (Flatten.filtered_out flt res) eqn:E.
  - now rewrite !step_filtered_out by congruence.
  - rewrite !step_retained by congruence. now rewrite Hs, Hcopy, Hm.
Qed.

Lemma fold_state_same_inputs (n : Z) (flt : option string) (rs rs' : list res_t) :
  Forall2 same_inputs rs rs' ->
  forall st, fold_state n flt rs st = fold_state n flt rs' st.
Proof.
  induction 1 as [| res res' rs rs' Hres _ IH]; intros st; simpl; [reflexivity |].
  rewrite (step_same_inputs n flt st res res' Hres).
  destruct (step n flt st res'); simpl; [apply IH | reflexivity].
Qed.

(** The flattener reads of a record its [input], its [model] and the
    log-probabilities of its first choice, and nothing else: two archives
    whose records agree on these give the same table or the same
    exception.  In particular a value that a record already holds under
    [output.echo_logprobs], such as the one an earlier run stored, has no
    effect. *)
Theorem flatten_reads_inputs_only (p p' : path) (fs fs' : filesystem) (rs rs' : list res_t)
  (n : Z) (flt : option string) :
  archive_at p rs fs ->
  archive_at p' rs' fs' ->
  Forall2 same_inputs rs rs' ->
  process_mega_json_for_no_complete_prompt p n flt fs
  = process_mega_json_for_no_complete_prompt p' n flt fs'.
Proof.
  intros Harchive Harchive' Hsame.
  rewrite (process_unfold _ _ _ _ _ Harchive), (process_unfold _ _ _ _ _ Harchive').
  now rewrite (fold_state_same_inputs n flt rs rs' Hsame).
Qed.

Lemma flatten_reads_inputs_only_witness :
  archive_at mega_path example_archive (archive_of example_archive)
  /\ archive_at mega_path example_archive_after (archive_of example_archive_after)
  /\ process_mega_json_for_no_complete_prompt mega_path 2 None (archive_of example_archive)
     = process_mega_json_for_no_complete_prompt mega_path 2 None
         (archive_of example_archive_after).
Proof.
  split; [reflexivity |]. split; [reflexivity |].
  refine (flatten_reads_inputs_only mega_path mega_path (archive_of example_archive)
            (archive_of example_archive_after) example_archive example_archive_after
            2 None eq_refl eq_refl _).
  repeat constructor.
Defined.

(** ** Archives that flatten to a table *)

Lemma completes_passes (n : Z) (res : res_t) : completes n res -> turn_passes n res.
Proof.
  intros (Hecho & e & He & Ht & Hl & Ho). split; [exact Hecho |].
  unfold cells, selection. rewrite He. simpl.
  rewrite completion_in_bounds by lia. simpl. unfold math_exp. rewrite Ho. simpl. eauto.
Qed.

(** An archive flattens to a table with one row per retained record
    when its retained records have the same fill fields, none of them
    named like a column of line 69, have echo, and have sequences with
    at least [n] entries whose tail sums are in the range of [math.exp]. *)
Theorem flatten_returns_table (p : path) (fs : filesystem) (rs : list res_t) (n : Z)
  (flt : option string) :
  archive_at p rs fs ->
  uniform_fill_fields flt rs ->
  (forall res, In res (retained flt rs) ->
     completes n res /\ forall k, In k (fill_fields res) -> is_fixed k = false) ->
  exists df,
    process_mega_json_for_no_complete_prompt p n flt fs = Ok df
    /\ Flatten.rows df = List.length (retained flt rs).
Proof.
  intros Harchive Huniform Hwf.
  destruct (flatten_succeeds p fs rs n flt Harchive Huniform) as [df Hdf].
  { intros res Hres. destruct (Hwf res Hres) as [Hc Hk].
    split; [now apply completes_passes | exact Hk]. }
  exists df. split; [exact Hdf |].
  now destruct (table_of_uniform_archive _ _ _ _ _ _ Harchive Huniform Hdf) as (Hrows & _).
Qed.

Lemma flatten_returns_table_witness :
  archive_at mega_path generated_archive (archive_of generated_archive)
  /\ exists df,
       process_mega_json_for_no_complete_prompt mega_path 2 None (archive_of generated_archive)
       = Ok df
       /\ Flatten.rows df = 2.
Proof.
  split; [reflexivity |].
  refine (flatten_returns_table mega_path (archive_of generated_archive) generated_archive
            2 None eq_refl _ _).
  - split.
    + intros r [<- | [<- | []]]; repeat constructor; simpl; tauto.
    + intros r r' [<- | [<- | []]] [<- | [<- | []]] k; tauto.
  - intros res [<- | [<- | []]].
    + split.
      * split; [reflexivity |]. exists (EchoWhole sample_logprobs).
        split; [reflexivity |]. split; [simpl; lia |]. split; [simpl; lia |].
        vm_compute. reflexivity.
      * intros k [<- | []]. reflexivity.
    + split.
      * split; [reflexivity |].
        exists (EchoSliced ["The"; "cat"; "sat"; "."] [-0.1; -0.2; -0.05; -0.01]%float).
        split; [reflexivity |]. split; [simpl; lia |]. split; [simpl; lia |].
        vm_compute. reflexivity.
      * intros k [<- | []]. reflexivity.
Defined.

(** ** The cells copied from the records *)

Lemma Forall2_map_right {A B : Type} (P : A -> B -> Prop) (f : A -> B) (l : list A) :
  (forall x, In x l -> P x (f x)) -> Forall2 P l (map f l).
Proof.
  induction l as [| x l IH]; intros H; simpl; constructor.
  - apply H. now left.
  - apply IH. intros y Hy. apply H. now right.
Qed.

Lemma cell_index (n : Z) (res : res_t) :
  mem "index" (fill_fields res) = false -> cell n "index" res = index (prompt (input res)).
Proof.
  unfold fill_fields, cell. rewrite find_mem.
  now destruct (find "index" (values (prompt (input res)))).
Qed.

Lemma cell_engine (n : Z) (res : res_t) :
  mem "engine" (fill_fields res) = false -> cell n "engine" res = VStr (engine (model res)).
Proof.
  unfold fill_fields, cell. rewrite find_mem.
  now destruct (find "engine" (values (prompt (input res)))).
Qed.

(** In the table of an archive whose retained records have the same fill
    fields, none named [index] or [engine], the column [index] holds the
    [input.prompt.index] of the retained records and the column [engine]
    their [model.engine], in the order of the archive; each column next
    to the four of line 69 holds, record by record, the value that the
    record's [values] mapping gives to the name of the column. *)
Theorem flatten_copies_fields (p : path) (fs : filesystem) (rs : list res_t) (n : Z)
  (flt : option string) (df : Flatten.DataFrame) :
  archive_at p rs fs ->
  uniform_fill_fields flt rs ->
  (forall res, In res (retained flt rs) ->
     mem "index" (fill_fields res) = false /\ mem "engine" (fill_fields res) = false) ->
  process_mega_json_for_no_complete_prompt p n flt fs = Ok df ->
  Flatten.column "index" df
  = Some (map (fun res => index (prompt (input res))) (retained flt rs))
  /\ Flatten.column "engine" df
     = Some (map (fun res => VStr (engine (model res))) (retained flt rs))
  /\ (forall k column,
        is_fixed k = false ->
        Flatten.column k df = Some column ->
        Forall2 (fun res v => find k (values (prompt (input res))) = Some v)
                (retained flt rs) column).
Proof.
  intros Harchive Huniform Hnames Hdf.
  destruct (table_of_uniform_archive _ _ _ _ _ _ Harchive Huniform Hdf)
    as (_ & Hcolumns & Hfixed & _ & _).
  split; [| split].
  - destruct (Hfixed "index" eq_refl) as [column Hc]. rewrite Hc, (Hcolumns _ _ Hc).
    f_equal. apply map_ext_in. intros res Hres. apply cell_index. now apply Hnames.
  - destruct (Hfixed "engine" eq_refl) as [column Hc]. rewrite Hc, (Hcolumns _ _ Hc).
    f_equal. apply map_ext_in. intros res Hres. apply cell_engine. now apply Hnames.
  - intros k column Hk Hc. rewrite (Hcolumns _ _ Hc).
    apply Forall2_map_right. intros res Hres.
    rewrite (process_unfold _ _ _ _ _ Harchive) in Hdf.
    destruct (fold_state n flt rs Flatten.initial) as [[d a] |] eqn:Hloop; [| discriminate].
    simpl in Hdf. apply DataFrame_columns in Hdf as [-> _].
    destruct (retained flt rs) as [| first rest] eqn:Hretained; [contradiction |].
    destruct (loop_columns _ _ _ _ _ _ _ Hretained Hloop) as (K & _ & _).
    assert (Hm : mem k (fill_fields res) = true).
    { rewrite (uniform_mem flt rs first rest Huniform Hretained k res Hres).
      destruct (mem k (fill_fields first)) eqn:E; [reflexivity |].
      rewrite (column_is_fixed_or_filled _ _ _ _ K Hc E) in Hk. discriminate. }
    unfold fill_fields in Hm. rewrite find_mem in Hm. unfold cell.
    now destruct (find k (values (prompt (input res)))).
Qed.

Lemma flatten_copies_fields_witness :
  archive_at mega_path mixed_archive (archive_of mixed_archive)
  /\ process_mega_json_for_no_complete_prompt mega_path 1 (Some "accept")
       (archive_of mixed_archive) = Ok accept_table
  /\ Flatten.column "index" accept_table = Some [VInt 1; VInt 3]
  /\ Flatten.column "engine" accept_table = Some [VStr "davinci"; VStr "davinci"].
Proof.
  assert (Hdf : process_mega_json_for_no_complete_prompt mega_path 1 (Some "accept")
                  (archive_of mixed_archive) = Ok accept_table)
    by (vm_compute; reflexivity).
  split; [reflexivity |]. split; [exact Hdf |].
  destruct (flatten_copies_fields mega_path (archive_of mixed_archive) mixed_archive 1
              (Some "accept") accept_table eq_refl) as (Hi & He & _).
  - split.
    + intros r [<- | [<- | []]]; repeat constructor; simpl; tauto.
    + intros r r' [<- | [<- | []]] [<- | [<- | []]] k; tauto.
  - intros res [<- | [<- | []]]; split; reflexivity.
  - exact Hdf.
  - split; [exact Hi | exact He].
Defined.

(** ** Fill fields named like the columns of line 69 *)

(** An archive that has a retained record, and whose retained records
    have the same fill fields, one of them named [tokens] or
    [probability], gives no table: the flattener raises. *)
Theorem flatten_field_named_tokens (p : path) (fs : filesystem) (rs : list res_t) (n : Z)
  (flt : option string) (res : res_t) :
  archive_at p rs fs ->
  uniform_fill_fields flt rs ->
  In res (retained flt rs) ->
  In "tokens" (fill_fields res) \/ In "probability" (fill_fields res) ->
  raised (process_mega_json_for_no_complete_prompt p n flt fs).
Proof.
  intros Harchive Huniform Hres Hnamed.
  destruct (process_mega_json_for_no_complete_prompt p n flt fs) as [df | e] eqn:Hdf;
    [| now exists e].
  destruct (table_of_uniform_archive _ _ _ _ _ _ Harchive Huniform Hdf)
    as (_ & _ & _ & _ & Hfresh).
  destruct (Hfresh res Hres) as [Ht Hp].
  destruct Hnamed as [H | H]; apply mem_In in H; congruence.
Qed.

Lemma flatten_field_named_tokens_witness :
  archive_at mega_path [sample 1 [("tokens", VStr "a")] "accept" true 0 sample_logprobs]
    (archive_of [sample 1 [("tokens", VStr "a")] "accept" true 0 sample_logprobs])
  /\ process_mega_json_for_no_complete_prompt mega_path 1 None
       (archive_of [sample 1 [("tokens", VStr "a")] "accept" true 0 sample_logprobs])
     = Raise (ValueError unequal_lengths)
  /\ raised (process_mega_json_for_no_complete_prompt mega_path 1 None
               (archive_of [sample 1 [("tokens", VStr "a")] "accept" true 0 sample_logprobs])).
Proof.
  split; [reflexivity |]. split; [vm_compute; reflexivity |].
  refine (flatten_field_named_tokens mega_path
            (archive_of [sample 1 [("tokens", VStr "a")] "accept" true 0 sample_logprobs])
            [sample 1 [("tokens", VStr "a")] "accept" true 0 sample_logprobs] 1 None
            (sample 1 [("tokens", VStr "a")] "accept" true 0 sample_logprobs)
            eq_refl _ (or_introl eq_refl) (or_introl (or_introl eq_refl))).
  split.
  - intros r [<- | []]. repeat constructor. simpl. tauto.
  - intros r r' [<- | []] [<- | []] k. tauto.
Defined.

(** A table of an archive whose retained records have the same fill
    fields, one of them named [index] or [engine], has one row only, and
    in it the column of that name holds the fill value and not the index
    or the engine of the record. *)
Theorem flatten_field_named_index (p : path) (fs : filesystem) (rs : list res_t) (n : Z)
  (flt : option string) (res : res_t) (c : string) (v : pyval) (df : Flatten.DataFrame) :
  archive_at p rs fs ->
  uniform_fill_fields flt rs ->
  In res (retained flt rs) ->
  c = "index" \/ c = "engine" ->
  find c (values (prompt (input res))) = Some v ->
  process_mega_json_for_no_complete_prompt p n flt fs = Ok df ->
  retained flt rs = [res]
  /\ Flatten.rows df = 1
  /\ Flatten.column c df = Some [v].
Proof.
  intros Harchive Huniform Hres Hc Hv Hdf.
  destruct (table_of_uniform_archive _ _ _ _ _ _ Harchive Huniform Hdf)
    as (Hrows & Hcolumns & Hfixed & _ & _).
  assert (Hm : mem c (fill_fields res) = true)
    by (unfold fill_fields; rewrite find_mem; now rewrite Hv).
  pose proof Hdf as Hdf'. rewrite (process_unfold _ _ _ _ _ Harchive) in Hdf'.
  destruct (fold_state n flt rs Flatten.initial) as [[d a] |] eqn:Hloop; [| discriminate].
  simpl in Hdf'. apply DataFrame_columns in Hdf' as [-> Hlen].
  destruct (retained flt rs) as [| first rest] eqn:Hretained; [contradiction |].
  destruct (uniform_lengths n flt rs first rest d a Huniform Hretained Hloop Hlen)
    as (_ & _ & _ & Hrest).
  rewrite (uniform_mem flt rs first rest Huniform Hretained c res Hres) in Hm.
  destruct Hrest as [-> | [Hi He]].
  - destruct Hres as [<- | []]. split; [reflexivity |]. split; [exact Hrows |].
    destruct (Hfixed c) as [column Hcol]; [destruct Hc as [-> | ->]; reflexivity |].
    rewrite Hcol, (Hcolumns _ _ Hcol). simpl. unfold cell. now rewrite Hv.
  - destruct Hc as [-> | ->]; congruence.
Qed.

Lemma flatten_field_named_index_witness :
  archive_at mega_path index_field_archive (archive_of index_field_archive)
  /\ process_mega_json_for_no_complete_prompt mega_path 1 None (archive_of index_field_archive)
     = Ok index_field_table
  /\ Flatten.rows index_field_table = 1
  /\ Flatten.column "index" index_field_table = Some [VStr "Bob"].
Proof.
  assert (Hdf : process_mega_json_for_no_complete_prompt mega_path 1 None
                  (archive_of index_field_archive) = Ok index_field_table)
    by (vm_compute; reflexivity).
  split; [reflexivity |]. split; [exact Hdf |].
  refine (proj2 (flatten_field_named_index mega_path (archive_of index_field_archive)
                   index_field_archive 1 None
                   (sample 1 [("index", VStr "Bob")] "accept" true 0 sample_logprobs)
                   "index" (VStr "Bob") index_field_table eq_refl _
                   (or_introl eq_refl) (or_introl eq_refl) eq_refl Hdf)).
  split.
  - intros r [<- | []]. repeat constructor. simpl. tauto.
  - intros r r' [<- | []] [<- | []] k. tauto.
Defined.

(** ** Records that disagree on their fill fields *)

Lemma loop_flag (n : Z) (flt : option string) (rs : list res_t) (first : res_t)
  (rest : list res_t) (d : dict (list pyval)) (a : bool) :
  retained flt rs = first :: rest ->
  fold_state n flt rs Flatten.initial = Ok (d, a) ->
  a = true.
Proof.
  intros Hret. rewrite fold_state_retained, Hret. simpl.
  assert (Hall : forall res, In res (first :: rest) -> Flatten.filtered_out flt res = false).
  { intros res Hres. rewrite <- Hret in Hres. now apply retained_passes_filter in Hres. }
  destruct (step n flt Flatten.initial first) as [[d1 a1] |] eqn:E; simpl; [| discriminate].
  intros H. apply first_turn in E; [| apply Hall; now left]. destruct E as (-> & _).
  apply later_turns in H; [| intros r Hr; apply Hall; now right]. now destruct H as (-> & _).
Qed.

Lemma fresh_keys_complete (ks : list string) :
  forall seen k, In k ks -> mem k seen = false -> In k (fresh_keys seen ks).
Proof.
  induction ks as [| k0 ks IH]; intros seen k; simpl; [tauto |].
  intros Hin Hk. destruct (String.eqb_spec k k0) as [-> | Hne].
  - rewrite Hk. now left.
  - destruct Hin as [-> | Hin]; [contradiction |].
    destruct (mem k0 seen); [now apply IH |].
    right. apply IH; [exact Hin |]. rewrite mem_app, Hk. simpl.
    apply String.eqb_neq in Hne. now rewrite Hne.
Qed.

(** The columns after the first retained record: the four of line 69
    and the fill fields of that record. *)
Lemma column_known (d : dict (list pyval)) (first : res_t) (k : string) :
  keys d = fixed_columns ++ fresh_keys fixed_columns (fill_fields first) ->
  mem k (keys d) = false <-> is_fixed k = false /\ ~ In k (fill_fields first).
Proof.
  intros K. rewrite K, mem_app. change (mem k fixed_columns) with (is_fixed k). split.
  - intros H. apply orb_false_iff in H as [Hf Hm]. split; [exact Hf |].
    intros Hin. apply (fresh_keys_complete _ fixed_columns) in Hin; [| exact Hf].
    apply mem_In in Hin. congruence.
  - intros [Hf Hin]. rewrite Hf. simpl.
    destruct (mem k (fresh_keys fixed_columns (fill_fields first))) eqn:E; [| reflexivity].
    apply mem_In, fresh_keys_incl in E. contradiction.
Qed.

Lemma populate_KeyError (items : dict pyval) :
  forall d : dict (list pyval),
    (exists k, In k (keys items) /\ mem k (keys d) = false) ->
    exists k', In k' (keys items) /\ mem k' (keys d) = false
               /\ Flatten.populate_prompt_fill_values items d = Raise (KeyError k').
Proof.
  induction items as [| [k0 v] items IH]; intros d (k & Hin & Hk); simpl in *; [contradiction |].
  destruct (mem k0 (keys d)) eqn:E.
  - destruct (append_present k0 v d E) as [d1 E1]. rewrite E1. simpl.
    pose proof (append_extends _ _ _ _ E1) as [K1 _].
    destruct Hin as [-> | Hin]; [congruence |].
    destruct (IH d1) as (k' & Hk' & Hm & Hraise); [exists k; now rewrite K1 |].
    exists k'. rewrite K1 in Hm. auto.
  - exists k0. rewrite (append_absent _ _ _ E). auto.
Qed.

(** A retained record that comes after the first one and has a fill
    field that is neither a fill field of the first retained record nor
    one of the four names of line 69 makes the flattener raise [KeyError]
    for such a field, when the turns of the records before it end without
    exception. *)
Theorem flatten_unknown_field (p : path) (fs : filesystem) (n : Z) (flt : option string)
  (before after : list res_t) (res first : res_t) (rest : list res_t) (st : Flatten.state)
  (k : string) :
  archive_at p (before ++ res :: after) fs ->
  retained flt before = first :: rest ->
  fold_state n flt before Flatten.initial = Ok st ->
  Flatten.filtered_out flt res = false ->
  In k (fill_fields res) ->
  is_fixed k = false ->
  ~ In k (fill_fields first) ->
  exists k',
    In k' (fill_fields res) /\ is_fixed k' = false /\ ~ In k' (fill_fields first)
    /\ process_mega_json_for_no_complete_prompt p n flt fs = Raise (KeyError k').
Proof.
  intros Harchive Hretained Hbefore Hf Hk Hfixed Hfirst. destruct st as [d a].
  pose proof (loop_flag _ _ _ _ _ _ _ Hretained Hbefore) as ->.
  destruct (loop_columns _ _ _ _ _ _ _ Hretained Hbefore) as (K & _ & _).
  assert (Hpresent : forall c, is_fixed c = true -> mem c (keys d) = true).
  { intros c Hc. rewrite K, mem_app. change (mem c fixed_columns) with (is_fixed c).
    now rewrite Hc. }
  destruct (append_present "index" (index (prompt (input res))) d (Hpresent "index" eq_refl))
    as [d1 E1].
  pose proof (append_extends _ _ _ _ E1) as [K1 _].
  destruct (append_present "engine" (VStr (engine (model res))) d1) as [d2 E2];
    [rewrite K1; now apply Hpresent |].
  pose proof (append_extends _ _ _ _ E2) as [K2 _].
  destruct (populate_KeyError (values (prompt (input res))) d2) as (k' & Hk' & Hm & Hraise).
  { exists k. split; [exact Hk |]. rewrite K2, K1. apply (column_known d first k K). auto. }
  rewrite K2, K1 in Hm. apply (column_known d first k' K) in Hm as [Hfixed' Hfirst'].
  exists k'. repeat (split; [assumption |]).
  eapply flatten_aborts; [exact Harchive | exact Hbefore |].
  rewrite (step_retained _ _ _ _ Hf). unfold Flatten.copy_fields.
  rewrite E1. simpl. rewrite E2. simpl. now rewrite Hraise.
Qed.

Lemma flatten_unknown_field_witness :
  archive_at mega_path [sound 1; sample 2 [("age", VInt 7)] "accept" true 0 sample_logprobs]
    (archive_of [sound 1; sample 2 [("age", VInt 7)] "accept" true 0 sample_logprobs])
  /\ process_mega_json_for_no_complete_prompt mega_path 1 None
       (archive_of [sound 1; sample 2 [("age", VInt 7)] "accept" true 0 sample_logprobs])
     = Raise (KeyError "age")
  /\ exists k',
       In k' (fill_fields (sample 2 [("age", VInt 7)] "accept" true 0 sample_logprobs))
       /\ is_fixed k' = false /\ ~ In k' (fill_fields (sound 1))
       /\ process_mega_json_for_no_complete_prompt mega_path 1 None
            (archive_of [sound 1; sample 2 [("age", VInt 7)] "accept" true 0 sample_logprobs])
          = Raise (KeyError k').
Proof.
  split; [reflexivity |]. split; [vm_compute; reflexivity |].
  refine (flatten_unknown_field mega_path
            (archive_of [sound 1; sample 2 [("age", VInt 7)] "accept" true 0 sample_logprobs])
            1 None [sound 1] []
            (sample 2 [("age", VInt 7)] "accept" true 0 sample_logprobs) (sound 1) [] _ "age"
            eq_refl eq_refl _ eq_refl (or_introl eq_refl) eq_refl _).
  - vm_compute. reflexivity.
  - simpl. intros [H | []]. discriminate H.
Defined.

Lemma loop_succeeds (n : Z) (flt : option string) (rs : list res_t) (first : res_t)
  (rest : list res_t) :
  retained flt rs = first :: rest ->
  (forall res, In res (first :: rest) -> turn_passes n res) ->
  (forall res k, In res rest -> In k (fill_fields res) -> In k (fill_fields first)) ->
  exists d, fold_state n flt rs Flatten.initial = Ok (d, true).
Proof.
  intros Hretained Hpasses Hsub.
  assert (Hall : forall res, In res (first :: rest) -> Flatten.filtered_out flt res = false).
  { intros res Hres. rewrite <- Hretained in Hres. now apply retained_passes_filter in Hres. }
  rewrite fold_state_retained, Hretained. simpl.
  destruct (turn_succeeds n flt (fst Flatten.initial) false first) as [d1 E1];
    try (now apply Hall; left); try (now apply Hpasses; left); try discriminate.
  { intros c Hc. exact Hc. }
  change (fst Flatten.initial, false) with Flatten.initial in E1. rewrite E1. simpl.
  destruct (first_turn _ _ _ _ _ (Hall first (in_eq _ _)) E1) as (_ & K1 & _).
  apply later_turns_succeed.
  - intros res Hres. apply Hall. now right.
  - intros res Hres. apply Hpasses. now right.
  - intros c Hc. rewrite K1, mem_app. change (mem c fixed_columns) with (is_fixed c).
    now rewrite Hc.
  - intros res k Hres Hk. destruct (mem k (keys d1)) eqn:E; [reflexivity |].
    apply (column_known d1 first k K1) in E as [_ E]. exfalso. apply E. eauto.
Qed.

Lemma flat_map_shorter {A B : Type} (f : A -> list B) (l : list A) (x0 : A) :
  (forall x, In x l -> List.length (f x) <= 1) ->
  In x0 l ->
  List.length (f x0) = 0 ->
  List.length (flat_map f l) < List.length l.
Proof.
  induction l as [| x l IH]; intros Hle Hin H0; simpl; [contradiction |].
  rewrite length_app.
  assert (Hl : List.length (flat_map f l) <= List.length l).
  { clear IH Hin. induction l as [| y l IHl]; simpl; [lia |].
    rewrite length_app.
    pose proof (Hle y (or_intror (or_introl eq_refl))).
    assert (List.length (flat_map f l) <= List.length l); [| lia].
    apply IHl. intros z [<- | Hz]; apply Hle; simpl; auto. }
  destruct Hin as [-> | Hin].
  - rewrite H0. lia.
  - pose proof (Hle x (or_introl eq_refl)).
    assert (List.length (flat_map f l) < List.length l); [| lia].
    apply IH; auto. intros y Hy. apply Hle. now right.
Qed.

Lemma DataFrame_raises (d : dict (list pyval)) (e : pyerr) :
  Flatten.pd_DataFrame d = Raise e -> e = ValueError unequal_lengths.
Proof.
  unfold Flatten.pd_DataFrame. destruct d as [| [k0 column0] others]; [discriminate |].
  destruct (forallb _ others); [discriminate | now intros [= <-]].
Qed.

Lemma DataFrame_unequal (d : dict (list pyval)) (c c' : string) (column column' : list pyval) :
  find c d = Some column ->
  find c' d = Some column' ->
  List.length column <> List.length column' ->
  Flatten.pd_DataFrame d = Raise (ValueError unequal_lengths).
Proof.
  intros Hc Hc' Hne. destruct (Flatten.pd_DataFrame d) as [df | e] eqn:E.
  - apply DataFrame_columns in E as [_ Hrows].
    rewrite (Hrows _ _ Hc), (Hrows _ _ Hc') in Hne. contradiction.
  - now rewrite (DataFrame_raises _ _ E).
Qed.

(** When the retained records pass lines 99-131, have fill fields with
    other names than the four of line 69, all among the fill fields of the
    first retained record, and one of them lacks a fill field of the first,
    the loop ends without exception but the flattener raises the
    [ValueError] of [pd.DataFrame]: the columns have unequal lengths. *)
Theorem flatten_missing_field (p : path) (fs : filesystem) (rs : list res_t) (n : Z)
  (flt : option string) (first : res_t) (rest : list res_t) (res : res_t) (k : string) :
  archive_at p rs fs ->
  retained flt rs = first :: rest ->
  (forall r, In r (first :: rest) ->
     completes n r /\ NoDup (fill_fields r)
     /\ forall c, In c (fill_fields r) -> is_fixed c = false) ->
  (forall r c, In r rest -> In c (fill_fields r) -> In c (fill_fields first)) ->
  In res rest ->
  In k (fill_fields first) ->
  ~ In k (fill_fields res) ->
  (exists st, fold_state n flt rs Flatten.initial = Ok st)
  /\ process_mega_json_for_no_complete_prompt p n flt fs = Raise (ValueError unequal_lengths).
Proof.
  intros Harchive Hretained Hwf Hsub Hres Hk Hlack.
  destruct (loop_succeeds n flt rs first rest Hretained) as [d Hloop]; [| exact Hsub |].
  { intros r Hr. apply completes_passes. now apply Hwf. }
  split; [eauto |].
  rewrite (process_unfold _ _ _ _ _ Harchive), Hloop. simpl.
  destruct (loop_columns _ _ _ _ _ _ _ Hretained Hloop) as (K & F & _).
  assert (Hnofix : forall r c, In r (first :: rest) -> is_fixed c = true ->
                               mem c (fill_fields r) = false).
  { intros r c Hr Hc. destruct (mem c (fill_fields r)) eqn:E; [| reflexivity].
    apply mem_In in E. apply (proj2 (proj2 (Hwf r Hr))) in E. congruence. }
  assert (Hkfix : is_fixed k = false) by (apply (proj2 (proj2 (Hwf first (in_eq _ _)))); exact Hk).
  destruct (fixed_column_exists d _ "index" K eq_refl) as [ci Ei].
  assert (Hmk : mem k (keys d) = true).
  { destruct (mem k (keys d)) eqn:E; [reflexivity |].
    apply (column_known d first k K) in E as [_ E]. contradiction. }
  rewrite find_mem in Hmk. destruct (find k d) as [ck |] eqn:Ek; [| discriminate].
  apply (DataFrame_unequal d "index" k ci ck Ei Ek).
  rewrite (F _ _ Ei), (F _ _ Ek), !length_app.
  rewrite !first_turn_cells_length by (apply Hwf; now left).
  rewrite (Hnofix first "index" (in_eq _ _) eq_refl).
  apply mem_In in Hk. rewrite Hk. rewrite is_fixed_cases in Hkfix.
  apply orb_false_iff in Hkfix as [Hkfix Hkp]. apply orb_false_iff in Hkfix as [Hkfix Hkt].
  apply orb_false_iff in Hkfix as [Hki Hke]. rewrite Hkt, Hkp.
  rewrite (flat_map_constant_length (turn_cells n "index") 1 rest).
  2:{ intros r Hr. rewrite turn_cells_length by (apply Hwf; now right).
      now rewrite (Hnofix r "index" (in_cons _ _ _ Hr) eq_refl). }
  assert (List.length (flat_map (turn_cells n k) rest) < List.length rest); [| simpl; lia].
  apply (flat_map_shorter _ rest res).
  - intros r Hr. rewrite turn_cells_length by (apply Hwf; now right).
    rewrite Hki, Hke, Hkt, Hkp. destruct (mem k (fill_fields r)); simpl; lia.
  - exact Hres.
  - rewrite turn_cells_length by (apply Hwf; now right).
    rewrite Hki, Hke, Hkt, Hkp.
    destruct (mem k (fill_fields res)) eqn:E; [| reflexivity].
    apply mem_In in E. contradiction.
Qed.

Lemma flatten_missing_field_witness :
  archive_at mega_path [sound 1; sample 2 [] "accept" true 0 sample_logprobs]
    (archive_of [sound 1; sample 2 [] "accept" true 0 sample_logprobs])
  /\ process_mega_json_for_no_complete_prompt mega_path 1 None
       (archive_of [sound 1; sample 2 [] "accept" true 0 sample_logprobs])
     = Raise (ValueError unequal_lengths).
Proof.
  split; [reflexivity |].
  refine (proj2 (flatten_missing_field mega_path
                   (archive_of [sound 1; sample 2 [] "accept" true 0 sample_logprobs])
                   [sound 1; sample 2 [] "accept" true 0 sample_logprobs] 1 None
                   (sound 1) [sample 2 [] "accept" true 0 sample_logprobs]
                   (sample 2 [] "accept" true 0 sample_logprobs) "name"
                   eq_refl eq_refl _ _ (or_introl eq_refl) (or_introl eq_refl) _)).
  - intros r [<- | [<- | []]].
    + split; [| split].
      * split; [reflexivity |]. exists (EchoWhole sample_logprobs).
        split; [reflexivity |]. split; [simpl; lia |]. split; [simpl; lia |].
        vm_compute. reflexivity.
      * repeat constructor. simpl. tauto.
      * intros c [<- | []]. reflexivity.
    + split; [| split].
      * split; [reflexivity |]. exists (EchoWhole sample_logprobs).
        split; [reflexivity |]. split; [simpl; lia |]. split; [simpl; lia |].
        vm_compute. reflexivity.
      * constructor.
      * intros c [].
  - intros r c [<- | []] [].
  - simpl. tauto.
Defined.

(** ** Archives put end to end *)

Lemma uniform_parts (flt : option string) (rs rs' : list res_t) :
  uniform_fill_fields flt (rs ++ rs') ->
  uniform_fill_fields flt rs /\ uniform_fill_fields flt rs'.
Proof.
  intros [Hnd Hsame].
  assert (Hl : forall r, In r (retained flt rs) -> In r (retained flt (rs ++ rs')))
    by (intros r Hr; rewrite retained_app; apply in_or_app; now left).
  assert (Hr : forall r, In r (retained flt rs') -> In r (retained flt (rs ++ rs')))
    by (intros r Hr; rewrite retained_app; apply in_or_app; now right).
  split; split; auto.
Qed.

(** When an archive and its two parts flatten to tables, and the
    retained records of the archive have the same fill fields, the table
    of the archive is the table of the first part on top of the table of
    the second: each column is the column of the first part followed by
    the column of the second, and the rows add up. *)
Theorem flatten_concatenation (p p1 p2 : path) (fs fs1 fs2 : filesystem)
  (rs1 rs2 : list res_t) (n : Z) (flt : option string) (df df1 df2 : Flatten.DataFrame) :
  archive_at p (rs1 ++ rs2) fs ->
  archive_at p1 rs1 fs1 ->
  archive_at p2 rs2 fs2 ->
  uniform_fill_fields flt (rs1 ++ rs2) ->
  process_mega_json_for_no_complete_prompt p n flt fs = Ok df ->
  process_mega_json_for_no_complete_prompt p1 n flt fs1 = Ok df1 ->
  process_mega_json_for_no_complete_prompt p2 n flt fs2 = Ok df2 ->
  Flatten.rows df = Flatten.rows df1 + Flatten.rows df2
  /\ (forall c column column1 column2,
        Flatten.column c df = Some column ->
        Flatten.column c df1 = Some column1 ->
        Flatten.column c df2 = Some column2 ->
        column = column1 ++ column2).
Proof.
  intros Harchive Harchive1 Harchive2 Huniform Hdf Hdf1 Hdf2.
  destruct (uniform_parts _ _ _ Huniform) as [Huniform1 Huniform2].
  destruct (table_of_uniform_archive _ _ _ _ _ _ Harchive Huniform Hdf) as (Hrows & Hcolumns & _).
  destruct (table_of_uniform_archive _ _ _ _ _ _ Harchive1 Huniform1 Hdf1)
    as (Hrows1 & Hcolumns1 & _).
  destruct (table_of_uniform_archive _ _ _ _ _ _ Harchive2 Huniform2 Hdf2)
    as (Hrows2 & Hcolumns2 & _).
  split.
  - now rewrite Hrows, Hrows1, Hrows2, retained_app, length_app.
  - intros c column column1 column2 Hc Hc1 Hc2.
    rewrite (Hcolumns _ _ Hc), (Hcolumns1 _ _ Hc1), (Hcolumns2 _ _ Hc2).
    now rewrite retained_app, map_app.
Qed.

Lemma flatten_concatenation_witness :
  archive_at mega_path generated_archive (archive_of generated_archive)
  /\ process_mega_json_for_no_complete_prompt mega_path 2 None (archive_of generated_archive)
     = Ok generated_table
  /\ process_mega_json_for_no_complete_prompt mega_path 2 None (archive_of example_archive)
     = Ok example_table
  /\ Flatten.rows generated_table = Flatten.rows example_table + 1.
Proof.
  assert (Hdf : process_mega_json_for_no_complete_prompt mega_path 2 None
                  (archive_of generated_archive) = Ok generated_table)
    by (vm_compute; reflexivity).
  assert (Hdf1 : process_mega_json_for_no_complete_prompt mega_path 2 None
                   (archive_of example_archive) = Ok example_table)
    by (vm_compute; reflexivity).
  split; [reflexivity |]. split; [exact Hdf |]. split; [exact Hdf1 |].
  refine (proj1 (flatten_concatenation mega_path mega_path mega_path
                   (archive_of generated_archive) (archive_of example_archive)
                   (archive_of [sample 3 [("name", VStr "Joe")] "accept" true 4
                                  sample_logprobs_generated])
                   example_archive
                   [sample 3 [("name", VStr "Joe")] "accept" true 4 sample_logprobs_generated]
                   2 None generated_table example_table
                   [("index", [VInt 3]); ("engine", [VStr "davinci"]);
                    ("tokens", [VStr "sat-."]); ("probability", [VExp (-0.05 + -0.01)]);
                    ("name", [VStr "Joe"])]
                   eq_refl eq_refl eq_refl _ Hdf Hdf1 _)).
  - split.
    + intros r [<- | [<- | []]]; repeat constructor; simpl; tauto.
    + intros r r' [<- | [<- | []]] [<- | [<- | []]] k; tauto.
  - vm_compute. reflexivity.
Defined.

(** ** A tail length that is not positive *)

Lemma completion_of_nothing (n : Z) (e : echo_logprobs_t) :
  (n <= 0)%Z -> Flatten.completion n e = Ok (VStr "", 0%float).
Proof.
  intros Hn. unfold Flatten.completion. rewrite range_from_1.
  replace (Z.to_nat n) with 0 by lia. reflexivity.
Qed.

(** For a tail length of zero or less the loop of lines 126-128 has no
    turn: no subscript is taken, so sequences of any length pass, and in
    the table of an archive whose retained records have the same fill
    fields every cell of [tokens] is the empty string and every cell of
    [probability] the value of [math.exp] at zero. *)
Theorem flatten_nonpositive_tail (p : path) (fs : filesystem) (rs : list res_t) (n : Z)
  (flt : option string) (df : Flatten.DataFrame) :
  (n <= 0)%Z ->
  archive_at p rs fs ->
  uniform_fill_fields flt rs ->
  process_mega_json_for_no_complete_prompt p n flt fs = Ok df ->
  (forall e, Flatten.completion n e = Ok (VStr "", 0%float))
  /\ Flatten.column "tokens" df = Some (map (fun _ => VStr "") (retained flt rs))
  /\ Flatten.column "probability" df = Some (map (fun _ => VExp 0) (retained flt rs)).
Proof.
  intros Hn Harchive Huniform Hdf.
  split; [intros e; now apply completion_of_nothing |].
  destruct (table_of_uniform_archive _ _ _ _ _ _ Harchive Huniform Hdf)
    as (_ & Hcolumns & Hfixed & Hpasses & Hfresh).
  rewrite Forall_forall in Hpasses.
  assert (Hcells : forall res, In res (retained flt rs) ->
                     tokens_cell n res = VStr "" /\ probability_cell n res = VExp 0).
  { intros res Hres. destruct (Hpasses res Hres) as (_ & t & q & Hc).
    destruct (cells_of_turn _ _ _ _ Hc) as [-> ->].
    unfold cells, selection in Hc.
    destruct (Flatten.isolate_echo res) as [e |]; [| discriminate]. simpl in Hc.
    rewrite (completion_of_nothing n e Hn) in Hc. simpl in Hc.
    injection Hc as <- <-. now split. }
  split.
  - destruct (Hfixed "tokens" eq_refl) as [column Hc]. rewrite Hc, (Hcolumns _ _ Hc).
    f_equal. apply map_ext_in. intros res Hres.
    rewrite cell_tokens by now apply Hfresh. now apply Hcells.
  - destruct (Hfixed "probability" eq_refl) as [column Hc]. rewrite Hc, (Hcolumns _ _ Hc).
    f_equal. apply map_ext_in. intros res Hres.
    rewrite cell_probability by now apply Hfresh. now apply Hcells.
Qed.

Lemma flatten_nonpositive_tail_witness :
  archive_at mega_path [short 1; sound 2] (archive_of [short 1; sound 2])
  /\ process_mega_json_for_no_complete_prompt mega_path 0 None (archive_of [short 1; sound 2])
     = Ok [("index", [VInt 1; VInt 2]); ("engine", [VStr "davinci"; VStr "davinci"]);
           ("tokens", [VStr ""; VStr ""]); ("probability", [VExp 0; VExp 0]);
           ("name", [VStr "Bob"; VStr "Bob"])]
  /\ Flatten.column "tokens"
       [("index", [VInt 1; VInt 2]); ("engine", [VStr "davinci"; VStr "davinci"]);
        ("tokens", [VStr ""; VStr ""]); ("probability", [VExp 0; VExp 0]);
        ("name", [VStr "Bob"; VStr "Bob"])]
     = Some [VStr ""; VStr ""].
Proof.
  assert (Hdf : process_mega_json_for_no_complete_prompt mega_path 0 None
                  (archive_of [short 1; sound 2])
                = Ok [("index", [VInt 1; VInt 2]); ("engine", [VStr "davinci"; VStr "davinci"]);
                      ("tokens", [VStr ""; VStr ""]); ("probability", [VExp 0; VExp 0]);
                      ("name", [VStr "Bob"; VStr "Bob"])])
    by (vm_compute; reflexivity).
  split; [reflexivity |]. split; [exact Hdf |].
  refine (proj1 (proj2 (flatten_nonpositive_tail mega_path (archive_of [short 1; sound 2])
                          [short 1; sound 2] 0 None _ _ eq_refl _ Hdf))).
  - lia.
  - split.
    + intros r [<- | [<- | []]]; repeat constructor; simpl; tauto.
    + intros r r' [<- | [<- | []]] [<- | [<- | []]] k; tauto.
Defined.

(** ** Records with generated tokens *)

(** In every run that returns a table, each retained record with
    [max_tokens != 0] has the character length of its [full_input] among
    its offsets, and the cells that lines 130-131 append for it come from
    the entries before the first position of that offset only: the last
    [n] of these tokens joined with ["-"], and the value of [math.exp] at
    the sum of the last [n] of these log-probabilities.  The entries at
    and after that position never reach the table. *)
Theorem flatten_salvaged_cells (p : path) (fs : filesystem) (rs : list res_t) (n : Z)
  (flt : option string) (df : Flatten.DataFrame) (res : res_t) :
  archive_at p rs fs ->
  process_mega_json_for_no_complete_prompt p n flt fs = Ok df ->
  In res (retained flt rs) ->
  max_tokens (model res) <> 0%Z ->
  In (Z.of_nat (String.length (full_input (input res))))
     (text_offset (choices_0 (output res)))
  /\ cells n res
     = Ok (VStr (PyList.join "-"
                   (last_entries n (firstn (cutoff res) (tokens (choices_0 (output res)))))),
           VExp (backward_sum
                   (last_entries n
                      (firstn (cutoff res) (token_logprobs (choices_0 (output res))))))).
Proof.
  intros Harchive Hdf Hres Hgenerated.
  rewrite (process_unfold _ _ _ _ _ Harchive) in Hdf.
  destruct (fold_state n flt rs Flatten.initial) as [st |] eqn:Hloop; [| discriminate].
  pose proof (loop_passes _ _ _ _ Hloop) as Hpasses. rewrite Forall_forall in Hpasses.
  destruct (Hpasses res Hres) as (_ & t & q & Hcells).
  destruct (in_dec Z.eq_dec (Z.of_nat (String.length (full_input (input res))))
              (text_offset (choices_0 (output res)))) as [Hoffset | Hoffset].
  - split; [exact Hoffset |]. rewrite Hcells. unfold cells, selection in Hcells.
    rewrite (isolate_echo_salvage res Hgenerated Hoffset) in Hcells. simpl in Hcells.
    destruct (Flatten.completion n _) as [[t' s] |] eqn:E; simpl in Hcells; [| discriminate].
    apply completion_passes in E as (_ & _ & -> & ->). simpl in Hcells.
    unfold math_exp in Hcells. destruct (exp_overflows _); [discriminate |].
    injection Hcells as <- <-. reflexivity.
  - unfold cells in Hcells. rewrite (selection_unaligned n res Hgenerated Hoffset) in Hcells.
    discriminate.
Qed.

Lemma flatten_salvaged_cells_witness :
  archive_at mega_path generated_archive (archive_of generated_archive)
  /\ process_mega_json_for_no_complete_prompt mega_path 2 None (archive_of generated_archive)
     = Ok generated_table
  /\ cells 2 (sample 3 [("name", VStr "Joe")] "accept" true 4 sample_logprobs_generated)
     = Ok (VStr "sat-.", VExp (-0.05 + -0.01)).
Proof.
  assert (Hdf : process_mega_json_for_no_complete_prompt mega_path 2 None
                  (archive_of generated_archive) = Ok generated_table)
    by (vm_compute; reflexivity).
  split; [reflexivity |]. split; [exact Hdf |].
  refine (proj2 (flatten_salvaged_cells mega_path (archive_of generated_archive)
                   generated_archive 2 None generated_table
                   (sample 3 [("name", VStr "Joe")] "accept" true 4 sample_logprobs_generated)
                   eq_refl Hdf (or_intror (or_introl eq_refl)) _)).
  discriminate.
Defined.

(** ** The order of the archive *)

Lemma retained_Permutation (flt : option string) (rs rs' : list res_t) :
  Permutation rs rs' -> Permutation (retained flt rs) (retained flt rs').
Proof.
  unfold retained. induction 1 as [| x l l' _ IH | x y l | l l' l'' _ IH1 _ IH2]; simpl.
  - constructor.
  - destruct (negb (Flatten.filtered_out flt x)); [now constructor | exact IH].
  - destruct (negb (Flatten.filtered_out flt x)), (negb (Flatten.filtered_out flt y));
      try apply Permutation_refl. apply perm_swap.
  - now apply Permutation_trans with (List.filter (fun res => negb (Flatten.filtered_out flt res)) l').
Qed.

Lemma uniform_Permutation (flt : option string) (rs rs' : list res_t) :
  Permutation rs rs' -> uniform_fill_fields flt rs -> uniform_fill_fields flt rs'.
Proof.
  intros Hperm [Hnd Hsame].
  assert (H : forall r, In r (retained flt rs') -> In r (retained flt rs)).
  { intros r. apply Permutation_in. apply Permutation_sym. now apply retained_Permutation. }
  split; auto.
Qed.

(** The order of the records of an archive decides the order of the rows
    and nothing else: when an archive whose retained records have the same
    fill fields and the archive of the same records in another order both
    flatten to tables, the tables have the same number of rows and each
    column of one is a rearrangement of the column of that name of the
    other. *)
Theorem flatten_permutation (p p' : path) (fs fs' : filesystem) (rs rs' : list res_t)
  (n : Z) (flt : option string) (df df' : Flatten.DataFrame) :
  archive_at p rs fs ->
  archive_at p' rs' fs' ->
  Permutation rs rs' ->
  uniform_fill_fields flt rs ->
  process_mega_json_for_no_complete_prompt p n flt fs = Ok df ->
  process_mega_json_for_no_complete_prompt p' n flt fs' = Ok df' ->
  Flatten.rows df = Flatten.rows df'
  /\ (forall c column column',
        Flatten.column c df = Some column ->
        Flatten.column c df' = Some column' ->
        Permutation column column').
Proof.
  intros Harchive Harchive' Hperm Huniform Hdf Hdf'.
  pose proof (uniform_Permutation _ _ _ Hperm Huniform) as Huniform'.
  pose proof (retained_Permutation flt _ _ Hperm) as Hretained.
  destruct (table_of_uniform_archive _ _ _ _ _ _ Harchive Huniform Hdf) as (Hrows & Hcolumns & _).
  destruct (table_of_uniform_archive _ _ _ _ _ _ Harchive' Huniform' Hdf')
    as (Hrows' & Hcolumns' & _).
  split.
  - rewrite Hrows, Hrows'. now apply Permutation_length.
  - intros c column column' Hc Hc'. rewrite (Hcolumns _ _ Hc), (Hcolumns' _ _ Hc').
    now apply Permutation_map.
Qed.

Lemma flatten_permutation_witness :
  archive_at mega_path generated_archive (archive_of generated_archive)
  /\ Permutation generated_archive (rev generated_archive)
  /\ process_mega_json_for_no_complete_prompt mega_path 2 None (archive_of generated_archive)
     = Ok generated_table
  /\ Flatten.rows generated_table = 2.
Proof.
  assert (Hdf : process_mega_json_for_no_complete_prompt mega_path 2 None
                  (archive_of generated_archive) = Ok generated_table)
    by (vm_compute; reflexivity).
  split; [reflexivity |]. split; [apply Permutation_rev |]. split; [exact Hdf |].
  refine (eq_trans
            (proj1 (flatten_permutation mega_path mega_path (archive_of generated_archive)
                      (archive_of (rev generated_archive)) generated_archive
                      (rev generated_archive) 2 None generated_table
                      [("index", [VInt 3; VInt 1]); ("engine", [VStr "davinci"; VStr "davinci"]);
                       ("tokens", [VStr "sat-."; VStr "sat-."]);
                       ("probability", [VExp (-0.05 + -0.01); VExp (-0.05 + -0.01)]);
                       ("name", [VStr "Joe"; VStr "Bob"])]
                      eq_refl eq_refl (Permutation_rev _) _ Hdf _)) eq_refl).
  - split.
    + intros r [<- | [<- | []]]; repeat constructor; simpl; tauto.
    + intros r r' [<- | [<- | []]] [<- | [<- | []]] k; tauto.
  - vm_compute. reflexivity.
Defined.

(** * Further properties of the consolidator *)

Lemma path_eqb_neq (p q : path) : p <> q -> path_eqb p q = false.
Proof. intros H. unfold path_eqb. now destruct (list_eq_dec string_dec p q). Qed.

Lemma read_write_other (p q : path) (f : file) (fs : filesystem) :
  q <> p -> read_file q (write_file p f fs) = read_file q fs.
Proof.
  intros Hne. induction fs as [| [r g] fs IH]; simpl.
  - now rewrite (path_eqb_neq p q) by congruence.
  - destruct (path_eqb r p) eqn:E; simpl.
    + unfold path_eqb in E. destruct (list_eq_dec string_dec r p) as [-> | ]; [| discriminate].
      now rewrite (path_eqb_neq p q) by congruence.
    + now rewrite IH.
Qed.

Lemma load_each_stops (fs : filesystem) (loaded : list path) (docs : list doc)
  (bad : path) (pending : list path) (e : pyerr) :
  Forall2 (fun data_file d => load_json data_file fs = Ok d) loaded docs ->
  load_json bad fs = Raise e ->
  forall mega, Consolidate.load_each (loaded ++ bad :: pending) fs mega = Raise e.
Proof.
  intros Hloaded Hbad. induction Hloaded as [| data_file d loaded docs H _ IH]; intros mega; simpl.
  - now rewrite Hbad.
  - rewrite H. simpl. apply IH.
Qed.

(** Lines 26-35 for a listing that has a length, a list of paths: when
    every listed file deserializes, the count returned is the number of
    listed files, the destination then deserializes to the list of their
    contents in the order of the listing, and no other file is touched. *)
Theorem consolidate_list_writes_archive (fs : filesystem) (files : list path)
  (docs : list doc) (save_file_path : path) :
  Forall2 (fun data_file d => load_json data_file fs = Ok d) files docs ->
  snd (Consolidate.consolidate (Consolidate.AList files) save_file_path fs)
  = Ok (List.length files)
  /\ load_json save_file_path
       (fst (Consolidate.consolidate (Consolidate.AList files) save_file_path fs))
     = Ok (DList docs)
  /\ List.length docs = List.length files
  /\ (forall q, q <> save_file_path ->
        read_file q (fst (Consolidate.consolidate (Consolidate.AList files) save_file_path fs))
        = read_file q fs).
Proof.
  intros H. destruct (consolidate_of_list fs files docs save_file_path H) as (E & Hload & Hlen).
  rewrite E. simpl. split; [reflexivity |]. split; [exact Hload |]. split; [exact Hlen |].
  intros q Hq. unfold save_json. now apply read_write_other.
Qed.

Lemma consolidate_list_writes_archive_witness :
  snd (Consolidate.consolidate (Consolidate.AList [["results"; "a.json"]]) mega_path one_file)
  = Ok 1
  /\ load_json mega_path
       (fst (Consolidate.consolidate (Consolidate.AList [["results"; "a.json"]])
               mega_path one_file))
     = Ok (DList [DRecord (sound 1)]).
Proof.
  destruct (consolidate_list_writes_archive one_file [["results"; "a.json"]]
              [DRecord (sound 1)] mega_path) as (Hcount & Hload & _).
  - repeat constructor.
  - split; [exact Hcount | exact Hload].
Defined.

(** Lines 26-35 for a listing that has a length, a list of paths: the
    first listed file that does not deserialize ends the run with its
    exception, and the file system is as it was -- nothing is written to
    the destination. *)
Theorem consolidate_list_is_atomic (fs : filesystem) (loaded : list path) (docs : list doc)
  (bad : path) (pending : list path) (e : pyerr) (save_file_path : path) :
  Forall2 (fun data_file d => load_json data_file fs = Ok d) loaded docs ->
  load_json bad fs = Raise e ->
  Consolidate.consolidate (Consolidate.AList (loaded ++ bad :: pending)) save_file_path fs
  = (fs, Raise e).
Proof.
  intros Hloaded Hbad. unfold Consolidate.consolidate. simpl.
  now rewrite (load_each_stops fs loaded docs bad pending e Hloaded Hbad).
Qed.

Lemma consolidate_list_is_atomic_witness :
  Consolidate.consolidate
    (Consolidate.AList [["results"; "a.json"]; ["results"; "run2"; "b.json"]])
    mega_path broken_file
  = (broken_file, Raise JSONDecodeError).
Proof.
  refine (consolidate_list_is_atomic broken_file [["results"; "a.json"]]
            [DRecord (sound 1)] ["results"; "run2"; "b.json"] [] JSONDecodeError mega_path
            _ eq_refl).
  repeat constructor.
Defined.
